(** * Database introspection reports of [postgres_mcp/resource.py]

    A shallow embedding of [_get_tables_impl] and [_get_views_impl]: the two
    coroutines that enumerate the schemas of a database, list its tables (or
    views) and assemble, entity by entity, the nested report handed back to
    the caller.

    Python dictionaries with string keys are [gmap string _]; the one
    dictionary whose iteration order reaches the output ([constraints], keyed
    by the constraint name read from a row) is an insertion-ordered
    association list.  Exceptions are an error monad, [try]/[except] is a
    match on its result.  The [logger] calls write to the process log only and
    are left out: no value of the response depends on them. *)

From Stdlib Require Import ZArith Ascii.
From stdpp Require Import base option list strings pretty gmap fin_maps sorting.

#[local] Set Warnings "-register-all".
#[local] Open Scope string_scope.
#[local] Open Scope list_scope.

(** ** Python values *)

(** The scalars a row of the driver carries: SQL NULL is [None], booleans,
    integers and text. *)
Inductive value :=
  | VNone
  | VBool (b : bool)
  | VInt (z : Z)
  | VStr (s : string).

#[global] Instance value_eq_dec : EqDecision value.
Proof. solve_decision. Defined.

(** [bool(v)]: what an [if v:] tests. *)
Definition truthy (v : value) : bool :=
  match v with
  | VNone => false
  | VBool b => b
  | VInt z => negb (z =? 0)%Z
  | VStr s => negb (String.eqb s "")
  end.

(** Dictionary keys are compared with [==] (and hashed accordingly): [True]
    and [1], [False] and [0] are the same key. *)
Definition key_of (v : value) : value :=
  match v with
  | VBool b => VInt (if b then 1 else 0)
  | _ => v
  end.

Definition py_eqb (v w : value) : bool := bool_decide (key_of v = key_of w).

(** [repr] of a text.  The quote is the single one, unless the text holds a
    single quote and no double one; the quote and the backslash are escaped
    with a backslash, tab, line feed and carriage return are written [\t],
    [\n] and [\r], and the other control characters [\xhh].  The texts are
    taken as ASCII: a character above 127 is left as it is, which is what
    Python does with the printable ones. *)
Definition single_quote : ascii := "039"%char.
Definition double_quote : ascii := "034"%char.
Definition backslash : ascii := "092"%char.

Definition hex_digit (n : N) : ascii :=
  match n with
  | 0 => "0" | 1 => "1" | 2 => "2" | 3 => "3" | 4 => "4" | 5 => "5" | 6 => "6"
  | 7 => "7" | 8 => "8" | 9 => "9" | 10 => "a" | 11 => "b" | 12 => "c"
  | 13 => "d" | 14 => "e" | _ => "f"
  end%N%char.

Fixpoint occurs (c : ascii) (s : string) : bool :=
  match s with
  | EmptyString => false
  | String c' s' => Ascii.eqb c c' || occurs c s'
  end.

Definition repr_char (quote c : ascii) : string :=
  let n := N_of_ascii c in
  if Ascii.eqb c quote || Ascii.eqb c backslash then String backslash (String c "")
  else if (n =? 9)%N then String backslash "t"
  else if (n =? 10)%N then String backslash "n"
  else if (n =? 13)%N then String backslash "r"
  else if (n <? 32)%N || (n =? 127)%N
       then String backslash
              (String "x" (String (hex_digit (n / 16)) (String (hex_digit (n mod 16)) "")))
  else String c "".

Fixpoint repr_chars (quote : ascii) (s : string) : string :=
  match s with
  | EmptyString => ""
  | String c s' => repr_char quote c +:+ repr_chars quote s'
  end.

Definition repr_str (s : string) : string :=
  let quote :=
    if occurs single_quote s && negb (occurs double_quote s)
    then double_quote else single_quote in
  String quote (repr_chars quote s +:+ String quote "").

(** [repr(v)], as it shows in the text of a [KeyError]. *)
Definition repr (v : value) : string :=
  match v with
  | VNone => "None"
  | VBool true => "True"
  | VBool false => "False"
  | VInt z => pretty z
  | VStr s => repr_str s
  end.

(** JSON-like documents: what the dictionaries and lists built by the
    handlers hold. *)
Inductive doc :=
  | DVal (v : value)
  | DList (l : list doc)
  | DDict (d : gmap string doc).

Definition DStr (s : string) : doc := DVal (VStr s).
Definition DInt (z : Z) : doc := DVal (VInt z).

(** ** Exceptions *)

Inductive exn :=
  | KeyError (key : value)
  | AttributeError (msg : string)
  | DriverError (msg : string).

(** [str(e)] *)
Definition str_exn (e : exn) : string :=
  match e with
  | KeyError k => repr k
  | AttributeError m => m
  | DriverError m => m
  end.

Inductive result (A : Type) :=
  | Ok (a : A)
  | Raise (e : exn).
Arguments Ok {A} a.
Arguments Raise {A} e.

#[global] Instance result_ret : MRet result := λ A, Ok.
#[global] Instance result_bind : MBind result :=
  λ A B f m, match m with Ok a => f a | Raise e => Raise e end.

Definition is_ok {A} (m : result A) : bool :=
  match m with Ok _ => true | Raise _ => false end.

(** One [append] per iteration of a [for] loop whose body may raise. *)
Fixpoint collect {A B} (f : A → result B) (l : list A) : result (list B) :=
  match l with
  | [] => mret []
  | x :: l' => y ← f x; ys ← collect f l'; mret (y :: ys)
  end.

(** ** Rows and the SQL driver *)

(** [RowResult]: each row exposes its cells by column label. *)
Record RowResult := { cells : gmap string value }.

(** [d[k]] *)
Definition getitem (d : gmap string value) (k : string) : result value :=
  match d !! k with
  | Some v => Ok v
  | None => Raise (KeyError (VStr k))
  end.

(** [d.get(k, dflt)]; [d.get(k)] is [get d k VNone]. *)
Definition get (d : gmap string value) (k : string) (dflt : value) : value :=
  default dflt (d !! k).

(** [d[k]] on a document dictionary. *)
Definition dgetitem (d : gmap string doc) (k : string) : result doc :=
  match d !! k with
  | Some v => Ok v
  | None => Raise (KeyError (VStr k))
  end.

(** The seven SQL statements of the module, in the order they appear. *)
Inductive statement :=
  | SchemasQuery        (* lines 112-127 and 344-359 *)
  | TablesQuery         (* lines 131-148 *)
  | ViewsQuery          (* lines 363-378 *)
  | ColumnsQuery        (* lines 164-186 and 394-416 *)
  | ConstraintsQuery    (* lines 209-239 *)
  | IndexesQuery        (* lines 266-282 *)
  | DependenciesQuery.  (* lines 439-458 *)

#[global] Instance statement_eq_dec : EqDecision statement.
Proof. solve_decision. Defined.

(** The column labels of each statement's SELECT list. *)
Definition select_list (q : statement) : list string :=
  match q with
  | SchemasQuery => ["schema_name"; "schema_owner"; "schema_type"]
  | TablesQuery =>
      ["table_schema"; "table_name"; "table_size"; "estimated_rows"; "table_comment"]
  | ViewsQuery => ["table_schema"; "table_name"; "view_definition"; "view_comment"]
  | ColumnsQuery =>
      ["column_name"; "data_type"; "is_nullable"; "column_default"; "ordinal_position";
       "character_maximum_length"; "numeric_precision"; "numeric_scale"; "column_comment"]
  | ConstraintsQuery =>
      ["constraint_name"; "constraint_type"; "column_name";
       "foreign_table_schema"; "foreign_table_name"; "foreign_column_name"]
  | IndexesQuery => ["indexname"; "indexdef"; "index_size"; "is_unique"; "is_primary"]
  | DependenciesQuery => ["source_schema"; "source_table"; "source_type"]
  end.

(** A row carries (at least) the given labels. *)
Definition has_labels (labels : list string) (r : RowResult) : bool :=
  forallb (λ l, bool_decide (is_Some (cells r !! l))) labels.

(** The rows are rows of statement [q]. *)
Definition shaped (q : statement) (rows : list RowResult) : bool :=
  forallb (has_labels (select_list q)) rows.

(** The driver: a statement and its bound parameters give an exception, no
    result set ([None]) or a list of rows. *)
Record SqlDriver := {
  run : statement → list value → result (option (list RowResult))
}.

(** [sql_driver.execute_query(sql)] *)
Definition execute_query (sql_driver : SqlDriver) (sql : statement)
  : result (option (list RowResult)) :=
  run sql_driver sql [].

(** [SafeSqlDriver.execute_param_query(sql_driver, sql, params)] *)
Definition execute_param_query (sql_driver : SqlDriver) (sql : statement)
    (params : list value) : result (option (list RowResult)) :=
  run sql_driver sql params.

(** [bool(rows)]: neither [None] nor an empty list. *)
Definition rows_truthy (rows : option (list RowResult)) : bool :=
  match rows with
  | Some (_ :: _) => true
  | _ => false
  end.

(** The rows an [if rows: for r in rows:] visits. *)
Definition rows_of (rows : option (list RowResult)) : list RowResult :=
  if rows_truthy rows then default [] rows else [].

(** ** The response envelope *)

(** Modelled from the spec: the response envelope, [format_text_response] and
    [format_error_response] of [utils/reponse.py], which is not part of the
    sources at hand; section 1 of the specification describes it as the
    success versus error wrapping of what is returned to the caller. *)
Inductive response :=
  | TextResponse (d : doc)
  | ErrorResponse (msg : string).

Definition format_text_response (d : doc) : response := TextResponse d.
Definition format_error_response (msg : string) : response := ErrorResponse msg.

(** The outer [try: ... except Exception as e: return format_error_response(str(e))]. *)
Definition try_response (body : result response) : response :=
  match body with
  | Ok r => r
  | Raise e => format_error_response (str_exn e)
  end.

(** ** The schema statement *)

Module Sql.

(** [s LIKE pattern]: [_] stands for any single character, [%] for any
    sequence of characters.  (The escape character does not occur in the
    patterns of this module.) *)
Fixpoint like (pattern s : string) {struct pattern} : bool :=
  match pattern with
  | EmptyString => match s with EmptyString => true | _ => false end
  | String "%"%char pattern' =>
      (fix any (s : string) : bool :=
         like pattern' s ||
         match s with
         | EmptyString => false
         | String _ s' => any s'
         end) s
  | String "_"%char pattern' =>
      match s with
      | EmptyString => false
      | String _ s' => like pattern' s'
      end
  | String c pattern' =>
      match s with
      | EmptyString => false
      | String d s' => Ascii.eqb c d && like pattern' s'
      end
  end.

(** A row of [information_schema.schemata]. *)
Record schemata := { schema_name : string; schema_owner : string }.

(** [CASE WHEN schema_name LIKE 'pg_%' THEN 'system'
         WHEN schema_name = 'information_schema' THEN 'system'
         ELSE 'user' END] *)
Definition schema_type (name : string) : string :=
  if like "pg_%" name then "system"
  else if String.eqb name "information_schema" then "system"
  else "user".

(** [WHERE schema_name NOT LIKE 'pg_%' AND schema_name != 'information_schema'] *)
Definition schemas_where (s : schemata) : bool :=
  negb (like "pg_%" (schema_name s))
  && negb (String.eqb (schema_name s) "information_schema").

(** [ORDER BY schema_name] *)
Definition by_schema_name (a b : schemata) : Prop :=
  String.le (schema_name a) (schema_name b).

#[global] Instance by_schema_name_dec : RelDecision by_schema_name.
Proof. intros a b. unfold by_schema_name. apply _. Defined.

Definition schema_row (s : schemata) : RowResult :=
  {| cells := {[ "schema_name" := VStr (schema_name s);
                 "schema_owner" := VStr (schema_owner s);
                 "schema_type" := VStr (schema_type (schema_name s)) ]} |}.

(** The result of the schema statement on a catalog. *)
Definition schemas_query (catalog : list schemata) : list RowResult :=
  schema_row <$> merge_sort by_schema_name (List.filter schemas_where catalog).

End Sql.

(** ** The constraint statement *)

Module ConstraintSql.

(** The rows of the three [information_schema] views that the statement of
    lines 211-237 joins, with the columns it reads. *)
Record table_constraints := {
  tc_constraint_name : string;
  tc_table_schema : string;
  tc_table_name : string;
  tc_constraint_type : string
}.

Record key_column_usage := {
  kcu_constraint_name : string;
  kcu_table_schema : string;
  kcu_column_name : string;
  kcu_ordinal_position : Z
}.

Record constraint_column_usage := {
  ccu_constraint_name : string;
  ccu_table_schema : string;
  ccu_table_name : string;
  ccu_column_name : string
}.

Record catalog := {
  tc_rows : list table_constraints;
  kcu_rows : list key_column_usage;
  ccu_rows : list constraint_column_usage
}.

(** [l LEFT JOIN r ON on]: each row of [l] with each row of [r] that matches
    it, and once with nulls when none does. *)
Definition left_join {A B} (on : A → B → bool) (l : list A) (r : list B)
  : list (A * option B) :=
  flat_map (λ a, match List.filter (on a) r with
                 | [] => [(a, None)]
                 | matches => (λ b, (a, Some b)) <$> matches
                 end) l.

(** [LEFT JOIN key_column_usage AS kcu
       ON tc.constraint_name = kcu.constraint_name
      AND tc.table_schema = kcu.table_schema] *)
Definition on_kcu (tc : table_constraints) (kcu : key_column_usage) : bool :=
  String.eqb (tc_constraint_name tc) (kcu_constraint_name kcu)
  && String.eqb (tc_table_schema tc) (kcu_table_schema kcu).

(** [LEFT JOIN constraint_column_usage AS ccu
       ON tc.constraint_name = ccu.constraint_name
      AND tc.constraint_type = 'FOREIGN KEY'] *)
Definition on_ccu (left : table_constraints * option key_column_usage)
    (ccu : constraint_column_usage) : bool :=
  String.eqb (tc_constraint_name left.1) (ccu_constraint_name ccu)
  && String.eqb (tc_constraint_type left.1) "FOREIGN KEY".

Definition joined : Type :=
  (table_constraints * option key_column_usage) * option constraint_column_usage.

(** [WHERE tc.table_schema = {} AND tc.table_name = {}] *)
Definition where_table (schema_name table_name : string) (j : joined) : bool :=
  String.eqb (tc_table_schema j.1.1) schema_name
  && String.eqb (tc_table_name j.1.1) table_name.

(** [ORDER BY tc.constraint_type, tc.constraint_name, kcu.ordinal_position],
    ascending, nulls last.  The statement leaves open the order of the rows
    that the three keys do not tell apart; the sort below fixes one. *)
Definition nulls_last_le (a b : option Z) : bool :=
  match a, b with
  | Some x, Some y => (x <=? y)%Z
  | _, None => true
  | None, Some _ => false
  end.

Definition order_by_le (a b : joined) : bool :=
  match String.compare (tc_constraint_type a.1.1) (tc_constraint_type b.1.1) with
  | Lt => true
  | Gt => false
  | Eq =>
      match String.compare (tc_constraint_name a.1.1) (tc_constraint_name b.1.1) with
      | Lt => true
      | Gt => false
      | Eq => nulls_last_le (kcu_ordinal_position <$> a.1.2)
                            (kcu_ordinal_position <$> b.1.2)
      end
  end.

Definition order_by (a b : joined) : Prop := Is_true (order_by_le a b).

#[global] Instance order_by_dec : RelDecision order_by.
Proof. intros a b. unfold order_by. apply _. Defined.

(** The SELECT list: a null cell is [None]; the three [CASE] expressions
    give the cell of [ccu] for a FOREIGN KEY and null otherwise. *)
Definition nullable (cell : option string) : value :=
  match cell with
  | Some text => VStr text
  | None => VNone
  end.

Definition foreign_cell (j : joined) (column : constraint_column_usage → string)
  : value :=
  if String.eqb (tc_constraint_type j.1.1) "FOREIGN KEY"
  then nullable (column <$> j.2)
  else VNone.

Definition select (j : joined) : RowResult :=
  {| cells := {[ "constraint_name" := VStr (tc_constraint_name j.1.1);
                 "constraint_type" := VStr (tc_constraint_type j.1.1);
                 "column_name" := nullable (kcu_column_name <$> j.1.2);
                 "foreign_table_schema" := foreign_cell j ccu_table_schema;
                 "foreign_table_name" := foreign_cell j ccu_table_name;
                 "foreign_column_name" := foreign_cell j ccu_column_name ]} |}.

(** The result of the constraint statement for one table. *)
Definition constraints_query (c : catalog) (schema_name table_name : string)
  : list RowResult :=
  select <$>
    merge_sort order_by
      (List.filter (where_table schema_name table_name)
         (left_join on_ccu (left_join on_kcu (tc_rows c) (kcu_rows c)) (ccu_rows c))).

End ConstraintSql.

(** ** Column, index and dependency descriptors *)

(** Lines 191-206 and, verbatim, 421-436: one column row to its descriptor. *)
Definition col_info (r : RowResult) : result doc :=
  name ← getitem (cells r) "column_name";
  data_type ← getitem (cells r) "data_type";
  is_nullable ← getitem (cells r) "is_nullable";
  default_ ← getitem (cells r) "column_default";
  position ← getitem (cells r) "ordinal_position";
  let col_info : gmap string doc :=
    {[ "name" := DVal name;
       "data_type" := DVal data_type;
       "is_nullable" := DVal is_nullable;
       "default" := DVal default_;
       "position" := DVal position;
       "comment" := DVal (get (cells r) "column_comment" (VStr "")) ]} in
  col_info ←
    (if truthy (get (cells r) "character_maximum_length" VNone)
     then v ← getitem (cells r) "character_maximum_length";
          mret (<["max_length" := DVal v]> col_info)
     else mret col_info);
  col_info ←
    (if truthy (get (cells r) "numeric_precision" VNone)
     then v ← getitem (cells r) "numeric_precision";
          mret (<["precision" := DVal v]> col_info)
     else mret col_info);
  col_info ←
    (if truthy (get (cells r) "numeric_scale" VNone)
     then v ← getitem (cells r) "numeric_scale";
          mret (<["scale" := DVal v]> col_info)
     else mret col_info);
  mret (DDict col_info).

(** Lines 287-293. *)
Definition index_info (idx_row : RowResult) : result doc :=
  name ← getitem (cells idx_row) "indexname";
  definition ← getitem (cells idx_row) "indexdef";
  size ← getitem (cells idx_row) "index_size";
  is_unique ← getitem (cells idx_row) "is_unique";
  is_primary ← getitem (cells idx_row) "is_primary";
  mret (DDict {[ "name" := DVal name;
                 "definition" := DVal definition;
                 "size" := DVal size;
                 "is_unique" := DVal is_unique;
                 "is_primary" := DVal is_primary ]}).

(** Line 463. *)
Definition dep_type_map : gmap string value :=
  {[ "r" := VStr "table"; "v" := VStr "view"; "m" := VStr "materialized view" ]}.

(** [dep_type_map.get(source_type, "unknown")]: only a string equals a string key. *)
Definition dep_type (source_type : value) : value :=
  match source_type with
  | VStr s => default (VStr "unknown") (dep_type_map !! s)
  | _ => VStr "unknown"
  end.

(** Lines 463-468. *)
Definition dependency_info (dep_row : RowResult) : result doc :=
  schema ← getitem (cells dep_row) "source_schema";
  name ← getitem (cells dep_row) "source_table";
  source_type ← getitem (cells dep_row) "source_type";
  mret (DDict {[ "schema" := DVal schema;
                 "name" := DVal name;
                 "type" := DVal (dep_type source_type) ]}).

(** ** The constraint accumulator *)

(** The [constraints] dictionary of lines 241-261: constraint name to the
    descriptor under construction, in insertion order. *)
Definition odict : Type := list (value * gmap string doc).

(** [k in d] and [d[k]] *)
Fixpoint od_lookup (k : value) (d : odict) : option (gmap string doc) :=
  match d with
  | [] => None
  | (k', e) :: d' => if py_eqb k k' then Some e else od_lookup k d'
  end.

Definition od_getitem (k : value) (d : odict) : result (gmap string doc) :=
  match od_lookup k d with
  | Some e => Ok e
  | None => Raise (KeyError k)
  end.

(** [d[k] = e]: an existing key keeps its place (and its first spelling), a
    new key goes last. *)
Fixpoint od_insert (k : value) (e : gmap string doc) (d : odict) : odict :=
  match d with
  | [] => [(k, e)]
  | (k', e') :: d' =>
      if py_eqb k k' then (k', e) :: d' else (k', e') :: od_insert k e d'
  end.

(** Lines 244-261: one constraint row. *)
Definition con_step (constraints : odict) (con_row : RowResult) : result odict :=
  cname ← getitem (cells con_row) "constraint_name";
  ctype ← getitem (cells con_row) "constraint_type";
  col ← getitem (cells con_row) "column_name";
  constraints ←
    (if negb (bool_decide (is_Some (od_lookup cname constraints)))
     then
       let constraints :=
         od_insert cname {[ "type" := DVal ctype; "columns" := DList [] ]} constraints in
       (* Add foreign key reference info *)
       if py_eqb ctype (VStr "FOREIGN KEY")
          && truthy (get (cells con_row) "foreign_table_name" VNone)
       then
         schema ← getitem (cells con_row) "foreign_table_schema";
         table ← getitem (cells con_row) "foreign_table_name";
         column ← getitem (cells con_row) "foreign_column_name";
         entry ← od_getitem cname constraints;
         mret (od_insert cname
                 (<["references" := DDict {[ "schema" := DVal schema;
                                             "table" := DVal table;
                                             "column" := DVal column ]}]> entry)
                 constraints)
       else mret constraints
     else mret constraints);
  if truthy col
  then
    entry ← od_getitem cname constraints;
    columns ← dgetitem entry "columns";
    match columns with
    | DList l =>
        mret (od_insert cname (<["columns" := DList (l ++ [DVal col])]> entry) constraints)
    | _ => Raise (AttributeError "append")
    end
  else mret constraints.

(** The [for con_row in con_rows] loop. *)
Fixpoint con_loop (con_rows : list RowResult) (constraints : odict) : result odict :=
  match con_rows with
  | [] => mret constraints
  | con_row :: rest =>
      constraints ← con_step constraints con_row;
      con_loop rest constraints
  end.

(** Line 263: [[{"name": name, **data} for name, data in constraints.items()]] *)
Definition constraints_list (constraints : odict) : list doc :=
  (λ '(name, data), DDict (data ∪ {[ "name" := DVal name ]})) <$> constraints.

(** Lines 241-263, from the rows of the constraint statement to the list of
    descriptors. *)
Definition build_constraints (con_rows : option (list RowResult)) : result (list doc) :=
  constraints ← con_loop (rows_of con_rows) [];
  mret (constraints_list constraints).

(** ** One entity *)

(** Lines 163-305: the body of the per-table [try]. *)
Definition table_info (sql_driver : SqlDriver) (row : RowResult)
    (schema_name table_name : value) : result doc :=
  col_rows ← execute_param_query sql_driver ColumnsQuery [schema_name; table_name];
  columns ← collect col_info (rows_of col_rows);
  con_rows ← execute_param_query sql_driver ConstraintsQuery [schema_name; table_name];
  constraints_list ← build_constraints con_rows;
  idx_rows ← execute_param_query sql_driver IndexesQuery [schema_name; table_name];
  indexes ← collect index_info (rows_of idx_rows);
  mret (DDict {[ "schema" := DVal schema_name;
                 "name" := DVal table_name;
                 "type" := DStr "table";
                 "comment" := DVal (get (cells row) "table_comment" (VStr ""));
                 "size" := DVal (get (cells row) "table_size" (VStr ""));
                 "estimated_rows" := DVal (get (cells row) "estimated_rows" (VInt 0));
                 "columns" := DList columns;
                 "constraints" := DList constraints_list;
                 "indexes" := DList indexes ]}).

(** Lines 393-478: the body of the per-view [try]. *)
Definition view_info (sql_driver : SqlDriver) (row : RowResult)
    (schema_name view_name : value) : result doc :=
  col_rows ← execute_param_query sql_driver ColumnsQuery [schema_name; view_name];
  columns ← collect col_info (rows_of col_rows);
  dep_rows ← execute_param_query sql_driver DependenciesQuery [schema_name; view_name];
  dependencies ← collect dependency_info (rows_of dep_rows);
  mret (DDict {[ "schema" := DVal schema_name;
                 "name" := DVal view_name;
                 "type" := DStr "view";
                 "comment" := DVal (get (cells row) "view_comment" (VStr ""));
                 "definition" := DVal (get (cells row) "view_definition" (VStr ""));
                 "columns" := DList columns;
                 "dependencies" := DList dependencies ]}).

(** Lines 158-311 and 388-484: the loop over the listed entities.  The two
    names are read outside the inner [try]; an exception of the body is
    caught there and the loop continues with the next entity. *)
Fixpoint entity_loop (body : RowResult → value → value → result doc)
    (rows : list RowResult) (infos : list doc) : result (list doc) :=
  match rows with
  | [] => mret infos
  | row :: rest =>
      schema_name ← getitem (cells row) "table_schema";
      entity_name ← getitem (cells row) "table_name";
      entity_loop body rest
        (match body row schema_name entity_name with
         | Ok info => infos ++ [info]
         | Raise _ => infos
         end)
  end.

(** [[row.cells for row in schema_rows] if schema_rows else []] *)
Definition schemas_of (schema_rows : option (list RowResult)) : list doc :=
  if rows_truthy schema_rows
  then (λ row, DDict (DVal <$> cells row)) <$> default [] schema_rows
  else [].

(** ** The two handlers *)

Section handlers.

(** [get_sql_driver_for_database] of [utils/sql_driver.py]: the connection
    to the named database, or an exception. *)
Variable get_sql_driver_for_database : string → result SqlDriver.

Definition _get_tables_impl (database_name : string) : response :=
  try_response (
    sql_driver ← get_sql_driver_for_database database_name;
    schema_rows ← execute_query sql_driver SchemasQuery;
    let schemas := schemas_of schema_rows in
    table_rows ← execute_query sql_driver TablesQuery;
    if negb (rows_truthy table_rows)
    then
      mret (format_text_response (DDict
        {[ "database" := DStr database_name;
           "schemas" := DList schemas;
           "tables" := DList [] ]}))
    else
      tables_info ← entity_loop (table_info sql_driver) (default [] table_rows) [];
      let result :=
        {[ "database" := DStr database_name;
           "schemas" := DList schemas;
           "tables" := DList tables_info;
           "total_tables" := DInt (Z.of_nat (length tables_info)) ]} in
      mret (format_text_response (DDict result))).

Definition _get_views_impl (database_name : string) : response :=
  try_response (
    sql_driver ← get_sql_driver_for_database database_name;
    schema_rows ← execute_query sql_driver SchemasQuery;
    let schemas := schemas_of schema_rows in
    view_rows ← execute_query sql_driver ViewsQuery;
    if negb (rows_truthy view_rows)
    then
      mret (format_text_response (DDict
        {[ "database" := DStr database_name;
           "schemas" := DList schemas;
           "views" := DList [] ]}))
    else
      views_info ← entity_loop (view_info sql_driver) (default [] view_rows) [];
      let result :=
        {[ "database" := DStr database_name;
           "schemas" := DList schemas;
           "views" := DList views_info;
           "total_views" := DInt (Z.of_nat (length views_info)) ]} in
      mret (format_text_response (DDict result))).

End handlers.

(** ** Vocabulary of the statements below *)

(** The two operations exposed to callers. *)
Inductive entity_kind := Table | View.

Definition describe (get_sql_driver_for_database : string → result SqlDriver)
    (kind : entity_kind) (database_name : string) : response :=
  match kind with
  | Table => _get_tables_impl get_sql_driver_for_database database_name
  | View => _get_views_impl get_sql_driver_for_database database_name
  end.

(** The listing statement of each operation, the body run per listed entity
    and the two keys of the report that depend on the operation. *)
Definition listing (kind : entity_kind) : statement :=
  match kind with Table => TablesQuery | View => ViewsQuery end.

Definition assemble (kind : entity_kind) (sql_driver : SqlDriver)
  : RowResult → value → value → result doc :=
  match kind with Table => table_info sql_driver | View => view_info sql_driver end.

Definition entities_key (kind : entity_kind) : string :=
  match kind with Table => "tables" | View => "views" end.

Definition total_key (kind : entity_kind) : string :=
  match kind with Table => "total_tables" | View => "total_views" end.

(** The collector statements run for one entity, and the key of the entity
    record that holds what is made of their rows. *)
Definition collectors (kind : entity_kind) : list statement :=
  match kind with
  | Table => [ColumnsQuery; ConstraintsQuery; IndexesQuery]
  | View => [ColumnsQuery; DependenciesQuery]
  end.

Definition field_of (q : statement) : string :=
  match q with
  | ColumnsQuery => "columns"
  | ConstraintsQuery => "constraints"
  | IndexesQuery => "indexes"
  | DependenciesQuery => "dependencies"
  | SchemasQuery => "schemas"
  | TablesQuery => "tables"
  | ViewsQuery => "views"
  end.

(** The report of lines 313-318 and 486-491. *)
Definition report (kind : entity_kind) (database_name : string)
    (schemas entities : list doc) : doc :=
  DDict {[ "database" := DStr database_name;
           "schemas" := DList schemas;
           entities_key kind := DList entities;
           total_key kind := DInt (Z.of_nat (length entities)) ]}.

(** The report of the early return, lines 151-155 and 381-385. *)
Definition empty_report (kind : entity_kind) (database_name : string)
    (schemas : list doc) : doc :=
  DDict {[ "database" := DStr database_name;
           "schemas" := DList schemas;
           entities_key kind := DList [] ]}.

(** The record one listed row contributes to the report, if any. *)
Definition entity_record (body : RowResult → value → value → result doc)
    (row : RowResult) : option doc :=
  match cells row !! "table_schema", cells row !! "table_name" with
  | Some schema_name, Some entity_name =>
      match body row schema_name entity_name with
      | Ok info => Some info
      | Raise _ => None
      end
  | _, _ => None
  end.

(** A record is the record of the entity [schema_name].[entity_name]. *)
Definition describes (schema_name entity_name : value) (info : doc) : Prop :=
  ∃ m, info = DDict m
       ∧ m !! "schema" = Some (DVal schema_name)
       ∧ m !! "name" = Some (DVal entity_name).

(** What an optional key of a descriptor holds for a cell: the cell when it
    is truthy, and no key otherwise. *)
Definition when_truthy (cell : option value) : option doc :=
  match cell with
  | Some v => if truthy v then Some (DVal v) else None
  | None => None
  end.

(** *** Constraint rows *)

(** The row is a row of the constraint named [cname]. *)
Definition row_named (cname : value) (r : RowResult) : bool :=
  match cells r !! "constraint_name" with
  | Some k => py_eqb k cname
  | None => false
  end.

(** The column a constraint row contributes: its [column_name] when line 260
    lets it through. *)
Definition column_of (r : RowResult) : option value :=
  match cells r !! "column_name" with
  | Some col => if truthy col then Some col else None
  | None => None
  end.

(** The columns contributed by the rows of one constraint, in row order. *)
Definition columns_seen (cname : value) (rows : list RowResult) : list value :=
  omap column_of (List.filter (row_named cname) rows).

(** The reference block that lines 254-259 make of a row, if any. *)
Definition reference_of (r : RowResult) : option doc :=
  if py_eqb (get (cells r) "constraint_type" VNone) (VStr "FOREIGN KEY")
     && truthy (get (cells r) "foreign_table_name" VNone)
  then Some (DDict {[ "schema" := DVal (get (cells r) "foreign_table_schema" VNone);
                      "table" := DVal (get (cells r) "foreign_table_name" VNone);
                      "column" := DVal (get (cells r) "foreign_column_name" VNone) ]})
  else None.

(** The entry a row creates for a constraint not seen before (lines 249-259). *)
Definition new_entry (r : RowResult) : gmap string doc :=
  let entry : gmap string doc :=
    {[ "type" := DVal (get (cells r) "constraint_type" VNone); "columns" := DList [] ]} in
  match reference_of r with
  | Some reference => <["references" := reference]> entry
  | None => entry
  end.

(** Lines 260-261 on the entry of the row's constraint. *)
Definition add_column (r : RowResult) (entry : gmap string doc) : gmap string doc :=
  match column_of r, entry !! "columns" with
  | Some col, Some (DList l) => <["columns" := DList (l ++ [DVal col])]> entry
  | _, _ => entry
  end.

(** What one row does to the entry of the constraint [k]. *)
Definition entry_step (k : value) (entry : option (gmap string doc)) (r : RowResult)
  : option (gmap string doc) :=
  if row_named k r then Some (add_column r (default (new_entry r) entry)) else entry.

(** The keys of the accumulator, as the dictionary compares them. *)
Definition od_keys (d : odict) : list value := (λ kv, key_of kv.1) <$> d.

(** An entry under construction has its column list and no name yet. *)
Definition entry_wf (entry : gmap string doc) : Prop :=
  entry !! "name" = None ∧ ∃ l, entry !! "columns" = Some (DList l).

(** The descriptor carries the name [cname]. *)
Definition has_name (cname : value) (d : doc) : bool :=
  match d with
  | DDict m =>
      match m !! "name" with
      | Some (DVal k) => py_eqb k cname
      | _ => false
      end
  | _ => false
  end.

(** *** Dependency rows *)

(** The row passes [source_table.relkind IN ('r', 'v', 'm')] of the
    dependency statement, whose [source_type] is that [relkind]. *)
Definition relkind_in_rvm (r : RowResult) : bool :=
  match cells r !! "source_type" with
  | Some (VStr k) => bool_decide (k ∈ ["r"; "v"; "m"])
  | _ => false
  end.

(** The three kinds the dependency map knows. *)
Definition known_kind (d : doc) : Prop :=
  d = DStr "table" ∨ d = DStr "view" ∨ d = DStr "materialized view".

(** *** Sample inputs *)

(** An [integer] column without comment, as [information_schema.columns]
    reports it: precision 32, scale 0, no length. *)
Definition integer_column : RowResult :=
  {| cells := {[ "column_name" := VStr "id";
                 "data_type" := VStr "integer";
                 "is_nullable" := VStr "NO";
                 "column_default" := VNone;
                 "ordinal_position" := VInt 1;
                 "character_maximum_length" := VNone;
                 "numeric_precision" := VInt 32;
                 "numeric_scale" := VInt 0;
                 "column_comment" := VNone ]} |}.

(** A row of the constraint statement. *)
Definition constraint_row (name type column fschema ftable fcolumn : value) : RowResult :=
  {| cells := {[ "constraint_name" := name;
                 "constraint_type" := type;
                 "column_name" := column;
                 "foreign_table_schema" := fschema;
                 "foreign_table_name" := ftable;
                 "foreign_column_name" := fcolumn ]} |}.

(** A CHECK constraint: [key_column_usage] has no row for it, the left join
    leaves its column null. *)
Definition check_row : RowResult :=
  constraint_row (VStr "orders_total_check") (VStr "CHECK") VNone VNone VNone VNone.

(** The catalog of a schema [app]: a table [customers] with the primary key
    [(id, region)], and a table [orders] with the primary key [(id)], a
    foreign key [(customer_id, region_id)] to [customers (id, region)] and a
    CHECK constraint. *)
Definition orders_catalog : ConstraintSql.catalog :=
  {| ConstraintSql.tc_rows :=
       [ ConstraintSql.Build_table_constraints
           "customers_pkey" "app" "customers" "PRIMARY KEY";
         ConstraintSql.Build_table_constraints "orders_pkey" "app" "orders" "PRIMARY KEY";
         ConstraintSql.Build_table_constraints
           "orders_customer_fk" "app" "orders" "FOREIGN KEY" ];
     ConstraintSql.kcu_rows :=
       [ ConstraintSql.Build_key_column_usage "customers_pkey" "app" "id" 1;
         ConstraintSql.Build_key_column_usage "customers_pkey" "app" "region" 2;
         ConstraintSql.Build_key_column_usage "orders_pkey" "app" "id" 1;
         ConstraintSql.Build_key_column_usage "orders_customer_fk" "app" "customer_id" 1;
         ConstraintSql.Build_key_column_usage "orders_customer_fk" "app" "region_id" 2 ];
     ConstraintSql.ccu_rows :=
       [ ConstraintSql.Build_constraint_column_usage "customers_pkey" "app" "customers" "id";
         ConstraintSql.Build_constraint_column_usage
           "customers_pkey" "app" "customers" "region";
         ConstraintSql.Build_constraint_column_usage "orders_pkey" "app" "orders" "id";
         ConstraintSql.Build_constraint_column_usage
           "orders_customer_fk" "app" "customers" "id";
         ConstraintSql.Build_constraint_column_usage
           "orders_customer_fk" "app" "customers" "region" ] |}.

(** The same catalog with a CHECK constraint on [orders] only. *)
Definition checked_catalog : ConstraintSql.catalog :=
  {| ConstraintSql.tc_rows :=
       [ ConstraintSql.Build_table_constraints
           "orders_total_check" "app" "orders" "CHECK" ];
     ConstraintSql.kcu_rows := ConstraintSql.kcu_rows orders_catalog;
     ConstraintSql.ccu_rows := ConstraintSql.ccu_rows orders_catalog |}.

(** The rows that the constraint statement returns for [app.orders] in
    [orders_catalog]: the join pairs each of the two columns of the foreign
    key with each of the two columns it refers to. *)
Definition orders_constraints : list RowResult :=
  [ constraint_row (VStr "orders_customer_fk") (VStr "FOREIGN KEY") (VStr "customer_id")
      (VStr "app") (VStr "customers") (VStr "id");
    constraint_row (VStr "orders_customer_fk") (VStr "FOREIGN KEY") (VStr "customer_id")
      (VStr "app") (VStr "customers") (VStr "region");
    constraint_row (VStr "orders_customer_fk") (VStr "FOREIGN KEY") (VStr "region_id")
      (VStr "app") (VStr "customers") (VStr "region");
    constraint_row (VStr "orders_customer_fk") (VStr "FOREIGN KEY") (VStr "region_id")
      (VStr "app") (VStr "customers") (VStr "id");
    constraint_row (VStr "orders_pkey") (VStr "PRIMARY KEY") (VStr "id") VNone VNone VNone ].

(** A database without tables and views: every statement returns no row. *)
Definition empty_database : SqlDriver :=
  {| run := λ _ _, Ok (Some []) |}.

(** A catalog with two application schemas, one of them the job queue of
    pg-boss, next to the system schemas. *)
Definition sample_catalog : list Sql.schemata :=
  [ {| Sql.schema_name := "public"; Sql.schema_owner := "postgres" |};
    {| Sql.schema_name := "pgboss"; Sql.schema_owner := "app" |};
    {| Sql.schema_name := "pg_toast"; Sql.schema_owner := "postgres" |};
    {| Sql.schema_name := "information_schema"; Sql.schema_owner := "postgres" |};
    {| Sql.schema_name := "app"; Sql.schema_owner := "app" |} ].

(** A row of the table listing and a row of the view listing. *)
Definition table_row (schema name : string) : RowResult :=
  {| cells := {[ "table_schema" := VStr schema;
                 "table_name" := VStr name;
                 "table_size" := VStr "16 kB";
                 "estimated_rows" := VInt 0;
                 "table_comment" := VNone ]} |}.

Definition view_row (schema name definition : string) : RowResult :=
  {| cells := {[ "table_schema" := VStr schema;
                 "table_name" := VStr name;
                 "view_definition" := VStr definition;
                 "view_comment" := VNone ]} |}.

Definition dependency_row (schema name relkind : string) : RowResult :=
  {| cells := {[ "source_schema" := VStr schema;
                 "source_table" := VStr name;
                 "source_type" := VStr relkind ]} |}.

(** A database [shop]: the tables [app.users] and [app.orders], the view
    [app.active_users] over [app.users].  The column statement is rejected
    for [app.orders]; [app.users] has no constraint and no result set for its
    indexes. *)
Definition shop : SqlDriver :=
  {| run := λ q params,
       match q with
       | SchemasQuery => Ok (Some (Sql.schemas_query sample_catalog))
       | TablesQuery => Ok (Some [table_row "app" "orders"; table_row "app" "users"])
       | ViewsQuery =>
           Ok (Some [view_row "app" "active_users" "SELECT id FROM app.users"])
       | ColumnsQuery =>
           if bool_decide (params = [VStr "app"; VStr "orders"])
           then Raise (DriverError "permission denied for table orders")
           else Ok (Some [integer_column])
       | ConstraintsQuery => Ok (Some [])
       | IndexesQuery => Ok None
       | DependenciesQuery => Ok (Some [dependency_row "app" "users" "r"])
       end |}.

(** The connection to [shop], and no other database. *)
Definition connect_shop (database_name : string) : result SqlDriver :=
  if String.eqb database_name "shop" then Ok shop
  else Raise (DriverError "database does not exist").

(** ** Registration of the resources *)

(** What [mcp_instance.resource(uri)] decorates: a coroutine without
    parameter, or one that takes the database name bound by the template. *)
Inductive resource_fn :=
  | StaticFn (f : unit → response)
  | DynamicFn (f : string → response).

(** The two addresses of lines 36-37, for the database [db_name]. *)
Definition tables_uri (db_name : string) : string :=
  "postgres://database/" +:+ db_name +:+ "/tables".

Definition views_uri (db_name : string) : string :=
  "postgres://database/" +:+ db_name +:+ "/views".

Section registration.

Variable get_sql_driver_for_database : string → result SqlDriver.

(** The FastMCP instance is an object of a library, seen through the one
    method that the module calls on it.  [Mcp] is its state and [resource]
    is [mcp_instance.resource(uri)(fn)]: it changes the instance, which the
    caller shares, and it may raise (FastMCP refuses an address whose
    parameters are not those of the coroutine). *)
Variable Mcp : Type.
Variable resource : Mcp → string → resource_fn → Mcp * result unit.

(** Lines 33-59. *)
Definition _register_static_resources (mcp_instance : Mcp) (db_name : string)
  : Mcp * result unit :=
  let get_database_tables_static :=
    StaticFn (λ _, _get_tables_impl get_sql_driver_for_database db_name) in
  let '(mcp_instance, registered) :=
    resource mcp_instance (tables_uri db_name) get_database_tables_static in
  match registered with
  | Raise e => (mcp_instance, Raise e)
  | Ok _ =>
      let get_database_views_static :=
        StaticFn (λ _, _get_views_impl get_sql_driver_for_database db_name) in
      resource mcp_instance (views_uri db_name) get_database_views_static
  end.

(** Lines 62-91. *)
Definition _register_dynamic_resources (mcp_instance : Mcp) : Mcp * result unit :=
  let get_database_tables_dynamic :=
    DynamicFn (λ database_name,
      _get_tables_impl get_sql_driver_for_database database_name) in
  let '(mcp_instance, registered) :=
    resource mcp_instance "postgres://database/{database_name}/tables"
      get_database_tables_dynamic in
  match registered with
  | Raise e => (mcp_instance, Raise e)
  | Ok _ =>
      let get_database_views_dynamic :=
        DynamicFn (λ database_name,
          _get_views_impl get_sql_driver_for_database database_name) in
      resource mcp_instance "postgres://database/{database_name}/views"
        get_database_views_dynamic
  end.

(** Lines 16-30; [if database_name:] holds for a name that is neither [None]
    nor the empty string. *)
Definition dynamically_register_resources (mcp_instance : Mcp)
    (database_name : option string) : Mcp * result unit :=
  match database_name with
  | Some name =>
      if negb (String.eqb name "")
      then _register_static_resources mcp_instance name
      else _register_dynamic_resources mcp_instance
  | None => _register_dynamic_resources mcp_instance
  end.

End registration.

Arguments _register_static_resources _ {Mcp} _ _ _.
Arguments _register_dynamic_resources _ {Mcp} _ _.
Arguments dynamically_register_resources _ {Mcp} _ _ _.

(** The answer of a registered coroutine when the server calls it for the
    database [database_name]: a static one takes no argument. *)
Definition call_resource (fn : resource_fn) (database_name : string) : response :=
  match fn with
  | StaticFn f => f ()
  | DynamicFn f => f database_name
  end.

(** *** More vocabulary *)

(** The labels a column row is indexed with, lines 192-196. *)
Definition mandatory_column_labels : list string :=
  ["column_name"; "data_type"; "is_nullable"; "column_default"; "ordinal_position"].

(** The optional key a truthy cell adds to a column descriptor. *)
Definition optional_key (r : RowResult) (label key : string) : gset string :=
  if truthy (get (cells r) label VNone) then {[ key ]} else ∅.

(** The distinct elements of a list, in the order of their first
    occurrence; [seen] are the elements met before. *)
Fixpoint first_seen (seen l : list value) : list value :=
  match l with
  | [] => []
  | x :: l' =>
      if bool_decide (x ∈ seen) then first_seen seen l'
      else x :: first_seen (x :: seen) l'
  end.

(** The constraint names of the rows, as the dictionary compares them. *)
Definition constraint_keys (rows : list RowResult) : list value :=
  omap (λ r, key_of <$> cells r !! "constraint_name") rows.

(** The names of the descriptors of a list, likewise. *)
Definition descriptor_keys (descriptors : list doc) : list value :=
  omap (λ d, match d with
             | DDict m =>
                 match m !! "name" with
                 | Some (DVal k) => Some (key_of k)
                 | _ => None
                 end
             | _ => None
             end) descriptors.

(** The entity a listed row names, when it carries both labels. *)
Definition row_entity (row : RowResult) : option (value * value) :=
  match cells row !! "table_schema", cells row !! "table_name" with
  | Some schema_name, Some entity_name => Some (schema_name, entity_name)
  | _, _ => None
  end.

(** A database [shop] with a table [app.audit] whose column statement
    returns a row without its [data_type]. *)
Definition truncated_column : RowResult :=
  {| cells := delete "data_type" (cells integer_column) |}.

Definition shop_audit : SqlDriver :=
  {| run := λ q params,
       match q with
       | TablesQuery => Ok (Some [table_row "app" "audit"; table_row "app" "users"])
       | ColumnsQuery =>
           if bool_decide (params = [VStr "app"; VStr "audit"])
           then Ok (Some [truncated_column])
           else Ok (Some [integer_column])
       | _ => run shop q params
       end |}.

(** A listing whose second row has lost its schema. *)
Definition shop_broken_listing : SqlDriver :=
  {| run := λ q params,
       match q with
       | TablesQuery =>
           Ok (Some [table_row "app" "users";
                     {| cells := delete "table_schema" (cells (table_row "app" "orders")) |}])
       | _ => run shop q params
       end |}.

(** The database [shop] with a primary-key index on [app.users], and with
    a foreign table among the sources of its view. *)
Definition index_row (name definition size : string) (is_unique is_primary : bool)
  : RowResult :=
  {| cells := {[ "indexname" := VStr name;
                 "indexdef" := VStr definition;
                 "index_size" := VStr size;
                 "is_unique" := VBool is_unique;
                 "is_primary" := VBool is_primary ]} |}.

Definition shop_indexed : SqlDriver :=
  {| run := λ q params,
       match q with
       | IndexesQuery =>
           Ok (Some [index_row "users_pkey"
                       "CREATE UNIQUE INDEX users_pkey ON app.users USING btree (id)"
                       "16 kB" true true])
       | DependenciesQuery =>
           Ok (Some [dependency_row "app" "users" "r"; dependency_row "ext" "rates" "f"])
       | _ => run shop q params
       end |}.

(** The database [shop] when the column statement is rejected for its two
    tables, and for them only. *)
Definition shop_locked : SqlDriver :=
  {| run := λ q params,
       match q with
       | ColumnsQuery =>
           if bool_decide (params ∈ [[VStr "app"; VStr "orders"];
                                     [VStr "app"; VStr "users"]])
           then Raise (DriverError "permission denied")
           else Ok (Some [integer_column])
       | _ => run shop q params
       end |}.

(** * Properties *)

(** ** The error monad and rows *)

Lemma bind_Ok {A B} (f : A → result B) (m : result A) (b : B) :
  m ≫= f = Ok b ↔ ∃ a, m = Ok a ∧ f a = Ok b.
Proof.
  destruct m as [a|e]; simpl.
  - split; [eauto | by intros (a' & [= <-] & ?)].
  - split; [done | by intros (a' & ? & ?)].
Qed.

Lemma getitem_Some c k v : c !! k = Some v → getitem c k = Ok v.
Proof. unfold getitem. by intros ->. Qed.

Lemma getitem_Ok c k v : getitem c k = Ok v ↔ c !! k = Some v.
Proof. unfold getitem. destruct (c !! k); naive_solver. Qed.

Lemma get_Some c k v dflt : c !! k = Some v → get c k dflt = v.
Proof. unfold get. by intros ->. Qed.

Lemma has_labels_lookup labels r l :
  has_labels labels r = true → l ∈ labels → is_Some (cells r !! l).
Proof.
  unfold has_labels. rewrite forallb_forall. intros H Hl.
  apply list_elem_of_In, H in Hl. by apply bool_decide_eq_true in Hl.
Qed.

Lemma shaped_elem q rows r :
  shaped q rows = true → r ∈ rows → has_labels (select_list q) r = true.
Proof.
  unfold shaped. rewrite forallb_forall. intros H Hr.
  by apply H, list_elem_of_In.
Qed.

Lemma shaped_app q l1 l2 :
  shaped q (l1 ++ l2) = true ↔ shaped q l1 = true ∧ shaped q l2 = true.
Proof. unfold shaped. rewrite forallb_app. apply andb_true_iff. Qed.

Lemma shaped_cons q r l :
  shaped q (r :: l) = true ↔ has_labels (select_list q) r = true ∧ shaped q l = true.
Proof. unfold shaped. simpl. apply andb_true_iff. Qed.

(** Reading the cell of a label that the row is known to carry. *)
Ltac cell H l v Hv :=
  let Hin := fresh in
  assert (is_Some (cells _ !! l)) as [v Hv]
    by (apply (has_labels_lookup _ _ l H); set_solver).

(** ** Column descriptors *)

(** A row of the column statement always yields a descriptor; its comment is
    the cell itself when the row has one, and each of the three optional keys
    is there exactly when its cell is truthy. *)
Lemma col_info_spec r :
  has_labels (select_list ColumnsQuery) r = true →
  ∃ d, col_info r = Ok (DDict d)
    ∧ d !! "name" = DVal <$> cells r !! "column_name"
    ∧ d !! "comment" = Some (DVal (get (cells r) "column_comment" (VStr "")))
    ∧ d !! "max_length" = when_truthy (cells r !! "character_maximum_length")
    ∧ d !! "precision" = when_truthy (cells r !! "numeric_precision")
    ∧ d !! "scale" = when_truthy (cells r !! "numeric_scale").
Proof.
  intros H.
  cell H "column_name" name Hname. cell H "data_type" ty Hty.
  cell H "is_nullable" nl Hnl. cell H "column_default" df Hdf.
  cell H "ordinal_position" pos Hpos.
  cell H "character_maximum_length" len Hlen.
  cell H "numeric_precision" pr Hpr. cell H "numeric_scale" scl Hsc.
  unfold col_info.
  rewrite (getitem_Some _ _ _ Hname), (getitem_Some _ _ _ Hty),
    (getitem_Some _ _ _ Hnl), (getitem_Some _ _ _ Hdf), (getitem_Some _ _ _ Hpos).
  rewrite (get_Some _ _ _ _ Hlen), (get_Some _ _ _ _ Hpr), (get_Some _ _ _ _ Hsc).
  rewrite (getitem_Some _ _ _ Hlen), (getitem_Some _ _ _ Hpr), (getitem_Some _ _ _ Hsc).
  rewrite Hname, Hlen, Hpr, Hsc. simpl.
  destruct (truthy len), (truthy pr), (truthy scl); simpl;
    eexists; (split; [reflexivity|]); repeat split; reflexivity.
Qed.

(** An optional key is in the descriptor exactly when its cell is truthy:
    present, not [None] and, for a number, not zero. *)
Lemma when_truthy_is_Some cell :
  is_Some (when_truthy cell) ↔ ∃ v, cell = Some v ∧ truthy v = true.
Proof.
  destruct cell as [v|]; simpl.
  - destruct (truthy v) eqn:Hv.
    + split; [eauto | intros _; by eexists].
    + split; [by intros [? ?] | intros (w & [= <-] & ?); congruence].
  - split; [by intros [? ?] | by intros (? & ? & ?)].
Qed.

(** Whatever optional key is present holds a cell that is not [None]: the
    "only when" half of the contract on the optional keys. *)
Lemma when_truthy_not_null cell x :
  when_truthy cell = Some x → ∃ v, cell = Some v ∧ x = DVal v ∧ v ≠ VNone.
Proof.
  destruct cell as [v|]; simpl; [|done].
  destruct (truthy v) eqn:Hv; [|done].
  intros [= <-]. exists v. repeat split. by intros ->.
Qed.

(** C6, at a column of type [integer]: the catalog reports the scale 0, which
    is not null, and the descriptor has the key ["precision"] but no key
    ["scale"], because line 204 tests the truth value of the cell. *)
Theorem col_info_omits_zero_scale :
  cells integer_column !! "numeric_scale" = Some (VInt 0)
  ∧ ∃ d, col_info integer_column = Ok (DDict d)
       ∧ d !! "precision" = Some (DInt 32)
       ∧ d !! "scale" = None.
Proof.
  split; [reflexivity|].
  eexists. split; [vm_compute; reflexivity|]. split; reflexivity.
Qed.

(** C7, at a column without description: the cell [column_comment] is there
    and holds [None], so the default of [.get] on line 197 is not used and the
    comment of the descriptor is [None], not the empty string. *)
Theorem col_info_null_comment_is_none :
  cells integer_column !! "column_comment" = Some VNone
  ∧ ∃ d, col_info integer_column = Ok (DDict d)
       ∧ d !! "comment" = Some (DVal VNone)
       ∧ d !! "comment" ≠ Some (DStr "").
Proof.
  split; [reflexivity|].
  eexists. split; [vm_compute; reflexivity|]. split; [reflexivity|discriminate].
Qed.

(** The default of line 197 applies to a row without the label only. *)
Lemma col_info_comment r d :
  has_labels (select_list ColumnsQuery) r = true →
  col_info r = Ok (DDict d) →
  d !! "comment" = DVal <$> cells r !! "column_comment".
Proof.
  intros H Hd. destruct (col_info_spec r H) as (d' & Hd' & _ & Hc & _).
  rewrite Hd' in Hd. injection Hd as <-. rewrite Hc.
  cell H "column_comment" v Hv. by rewrite (get_Some _ _ _ _ Hv), Hv.
Qed.

(** ** The loop over the listed entities *)

Lemma entity_loop_app body l1 l2 infos :
  entity_loop body (l1 ++ l2) infos
  = entity_loop body l1 infos ≫= entity_loop body l2.
Proof.
  revert infos. induction l1 as [|row l1 IH]; intros infos; simpl; [done|].
  destruct (getitem (cells row) "table_schema") as [s|]; simpl; [|done].
  destruct (getitem (cells row) "table_name") as [n|]; simpl; [|done].
  apply IH.
Qed.

(** On rows that carry the two names the loop does not raise: it extends the
    list with the record of each row that has one, in the order of the rows. *)
Lemma entity_loop_records body rows infos :
  forallb (has_labels ["table_schema"; "table_name"]) rows = true →
  entity_loop body rows infos = Ok (infos ++ omap (entity_record body) rows).
Proof.
  revert infos. induction rows as [|row rows IH]; intros infos H; simpl.
  - by rewrite app_nil_r.
  - cbn [forallb] in H. apply andb_true_iff in H as [Hrow Hrows].
    cell Hrow "table_schema" s Hs. cell Hrow "table_name" n Hn.
    unfold entity_record at 1. rewrite (getitem_Some _ _ _ Hs), (getitem_Some _ _ _ Hn), Hs, Hn.
    simpl. rewrite IH by done.
    destruct (body row s n); simpl; [by rewrite <-app_assoc | done].
Qed.

(** ** The constraint accumulator *)

Lemma py_eqb_true v w : py_eqb v w = true ↔ key_of v = key_of w.
Proof. unfold py_eqb. apply bool_decide_eq_true. Qed.

Lemma py_eqb_false v w : py_eqb v w = false ↔ key_of v ≠ key_of w.
Proof. unfold py_eqb. apply bool_decide_eq_false. Qed.

Lemma py_eqb_refl v : py_eqb v v = true.
Proof. by apply py_eqb_true. Qed.

Lemma py_eqb_sym v w : py_eqb v w = py_eqb w v.
Proof. unfold py_eqb. apply bool_decide_ext. naive_solver. Qed.

(** Comparing with a string: only that very string is equal to it. *)
Lemma py_eqb_str v s : py_eqb v (VStr s) = true ↔ v = VStr s.
Proof.
  rewrite py_eqb_true. destruct v as [|[]| |]; simpl; naive_solver.
Qed.

Ltac py_cases :=
  repeat match goal with
  | |- context [py_eqb ?a ?b] =>
      let H := fresh "Heq" in
      destruct (py_eqb a b) eqn:H;
      [apply py_eqb_true in H | apply py_eqb_false in H]
  | H : context [py_eqb ?a ?b] |- _ =>
      let H' := fresh "Heq" in
      destruct (py_eqb a b) eqn:H';
      [apply py_eqb_true in H' | apply py_eqb_false in H']
  end.

Lemma od_lookup_proper k k' d :
  key_of k = key_of k' → od_lookup k d = od_lookup k' d.
Proof.
  intros Hk. induction d as [|[k0 e0] d IH]; simpl; [done|].
  rewrite IH. py_cases; congruence.
Qed.

Lemma od_lookup_insert k k' e d :
  od_lookup k (od_insert k' e d) = if py_eqb k k' then Some e else od_lookup k d.
Proof.
  induction d as [|[k0 e0] d IH]; simpl.
  - by destruct (py_eqb k k').
  - destruct (py_eqb k' k0) eqn:H0; simpl; [|rewrite IH];
      py_cases; congruence.
Qed.

Lemma od_insert_id k e d : od_lookup k d = Some e → od_insert k e d = d.
Proof.
  induction d as [|[k0 e0] d IH]; simpl; [done|].
  destruct (py_eqb k k0); [by intros [= ->] | by intros ->%IH].
Qed.

Lemma od_insert_insert k e e' d :
  od_insert k e (od_insert k e' d) = od_insert k e d.
Proof.
  induction d as [|[k0 e0] d IH]; simpl.
  - by rewrite py_eqb_refl.
  - destruct (py_eqb k k0) eqn:H0; simpl; rewrite H0; [done | by rewrite IH].
Qed.

Lemma od_lookup_None k d : od_lookup k d = None ↔ key_of k ∉ od_keys d.
Proof.
  unfold od_keys. induction d as [|[k0 e0] d IH]; csimpl.
  - split; [intros _; apply not_elem_of_nil | done].
  - rewrite not_elem_of_cons, <-IH. py_cases.
    + split; [done | by intros [? _]].
    + split; [done | by intros [_ ?]].
Qed.

Lemma od_keys_insert k e d :
  od_keys (od_insert k e d)
  = match od_lookup k d with
    | Some _ => od_keys d
    | None => od_keys d ++ [key_of k]
    end.
Proof.
  unfold od_keys. induction d as [|[k0 e0] d IH]; csimpl; [done|].
  destruct (py_eqb k k0); csimpl; [done|].
  rewrite IH. by destruct (od_lookup k d).
Qed.

Lemma od_insert_NoDup k e d : NoDup (od_keys d) → NoDup (od_keys (od_insert k e d)).
Proof.
  intros Hd. rewrite od_keys_insert.
  destruct (od_lookup k d) eqn:Hk; [done|].
  apply NoDup_app. split_and!; [done| |apply NoDup_singleton].
  intros x Hx ->%list_elem_of_singleton. by apply od_lookup_None in Hk.
Qed.

Lemma od_lookup_elem k e d : od_lookup k d = Some e → ∃ k0, (k0, e) ∈ d.
Proof.
  induction d as [|[k0 e0] d IH]; simpl; [done|].
  destruct (py_eqb k k0).
  - intros [= ->]. exists k0. apply list_elem_of_here.
  - intros [k1 H1]%IH. exists k1. by apply list_elem_of_further.
Qed.

Lemma od_insert_wf k e d :
  entry_wf e → Forall (λ kv, entry_wf kv.2) d →
  Forall (λ kv, entry_wf kv.2) (od_insert k e d).
Proof.
  intros He. induction 1 as [|[k0 e0] d H0 Hd IH]; simpl.
  - apply Forall_cons_2; [done | apply Forall_nil_2].
  - destruct (py_eqb k k0); apply Forall_cons_2; done.
Qed.

Lemma od_lookup_wf k e d :
  Forall (λ kv, entry_wf kv.2) d → od_lookup k d = Some e → entry_wf e.
Proof.
  intros Hd [k0 Hk]%od_lookup_elem.
  by apply (proj1 (Forall_forall _ _) Hd) in Hk.
Qed.

Lemma new_entry_wf r : entry_wf (new_entry r).
Proof.
  unfold new_entry, entry_wf. destruct (reference_of r); split; try done; by eexists.
Qed.

Lemma add_column_wf r e : entry_wf e → entry_wf (add_column r e).
Proof.
  intros [Hn [l Hl]]. unfold add_column. rewrite Hl.
  destruct (column_of r); [|by split; [|eexists]].
  split; [by rewrite lookup_insert_ne | exists (l ++ [DVal v]); by rewrite lookup_insert_eq].
Qed.

(** One row of the constraint statement never raises: it puts the entry of
    its constraint, created if need be and extended by its column, at the
    place of that constraint. *)
Lemma con_step_upsert acc r cname :
  has_labels (select_list ConstraintsQuery) r = true →
  Forall (λ kv, entry_wf kv.2) acc →
  cells r !! "constraint_name" = Some cname →
  con_step acc r
  = Ok (od_insert cname (add_column r (default (new_entry r) (od_lookup cname acc))) acc).
Proof.
  intros H Hacc Hcname.
  cell H "constraint_type" ctype Hctype. cell H "column_name" col Hcol.
  cell H "foreign_table_schema" fs Hfs. cell H "foreign_table_name" ft Hft.
  cell H "foreign_column_name" fc Hfc.
  assert (Happend : ∀ e acc', od_lookup cname acc' = Some e → entry_wf e →
    (if truthy col
     then entry ← od_getitem cname acc';
          columns ← dgetitem entry "columns";
          match columns with
          | DList l =>
              mret (od_insert cname (<["columns" := DList (l ++ [DVal col])]> entry) acc')
          | _ => Raise (AttributeError "append")
          end
     else mret acc') = Ok (od_insert cname (add_column r e) acc')).
  { intros e acc' He [_ [l Hl]]. unfold add_column, column_of. rewrite Hcol, Hl.
    destruct (truthy col).
    - unfold od_getitem, dgetitem. rewrite He. simpl. by rewrite Hl.
    - by rewrite od_insert_id. }
  unfold con_step.
  rewrite (getitem_Some _ _ _ Hcname), (getitem_Some _ _ _ Hctype), (getitem_Some _ _ _ Hcol).
  cbn [mbind result_bind].
  destruct (od_lookup cname acc) as [e|] eqn:He.
  - rewrite bool_decide_eq_true_2 by by eexists. cbn [negb mbind result_bind mret result_ret].
    apply Happend; [done | by eapply od_lookup_wf].
  - rewrite bool_decide_eq_false_2 by by intros [? ?].
    cbn [negb default].
    unfold new_entry, reference_of.
    rewrite (get_Some _ _ _ _ Hctype), (get_Some _ _ _ _ Hft), (get_Some _ _ _ _ Hfs),
      (get_Some _ _ _ _ Hfc).
    destruct (py_eqb ctype (VStr "FOREIGN KEY") && truthy ft) eqn:Hfk.
    + rewrite (getitem_Some _ _ _ Hfs), (getitem_Some _ _ _ Hft), (getitem_Some _ _ _ Hfc).
      unfold od_getitem. rewrite od_lookup_insert, py_eqb_refl.
      cbn [mbind result_bind mret result_ret]. rewrite od_insert_insert.
      erewrite Happend.
      * by rewrite od_insert_insert.
      * by rewrite od_lookup_insert, py_eqb_refl.
      * split; [done | by eexists].
    + cbn [mbind result_bind mret result_ret].
      erewrite Happend.
      * by rewrite od_insert_insert.
      * by rewrite od_lookup_insert, py_eqb_refl.
      * split; [done | by eexists].
Qed.

Lemma con_step_lookup acc r k :
  has_labels (select_list ConstraintsQuery) r = true →
  Forall (λ kv, entry_wf kv.2) acc →
  ∃ acc', con_step acc r = Ok acc'
    ∧ Forall (λ kv, entry_wf kv.2) acc'
    ∧ (NoDup (od_keys acc) → NoDup (od_keys acc'))
    ∧ od_lookup k acc' = entry_step k (od_lookup k acc) r.
Proof.
  intros H Hacc. cell H "constraint_name" cname Hcname.
  eexists. split; [by apply con_step_upsert|].
  assert (entry_wf (default (new_entry r) (od_lookup cname acc))) as Hwf.
  { destruct (od_lookup cname acc) eqn:He; simpl;
      [by eapply od_lookup_wf | apply new_entry_wf]. }
  split_and!.
  - by apply od_insert_wf; [apply add_column_wf|].
  - apply od_insert_NoDup.
  - rewrite od_lookup_insert. unfold entry_step, row_named. rewrite Hcname.
    rewrite (py_eqb_sym cname k).
    destruct (py_eqb k cname) eqn:Hk; [|done].
    apply py_eqb_true in Hk. by rewrite (od_lookup_proper _ _ _ Hk).
Qed.

(** The loop over the constraint rows never raises on rows of the constraint
    statement, and the entry it leaves for a constraint depends on the rows of
    that constraint only. *)
Lemma con_loop_lookup rows acc :
  shaped ConstraintsQuery rows = true →
  Forall (λ kv, entry_wf kv.2) acc →
  NoDup (od_keys acc) →
  ∃ acc', con_loop rows acc = Ok acc'
    ∧ Forall (λ kv, entry_wf kv.2) acc'
    ∧ NoDup (od_keys acc')
    ∧ ∀ k, od_lookup k acc' = foldl (entry_step k) (od_lookup k acc) rows.
Proof.
  revert acc. induction rows as [|r rows IH]; intros acc Hrows Hacc Hnd.
  - exists acc. by split_and!.
  - apply shaped_cons in Hrows as [Hr Hrows].
    destruct (con_step_lookup acc r VNone Hr Hacc) as (acc1 & Hstep & Hwf1 & Hnd1 & _).
    destruct (IH acc1 Hrows Hwf1 (Hnd1 Hnd)) as (acc' & Hloop & Hwf' & Hnd' & Hlook).
    exists acc'. split_and!; try done.
    + simpl. by rewrite Hstep.
    + intros k. rewrite Hlook. simpl.
      destruct (con_step_lookup acc r k Hr Hacc) as (acc2 & Hstep2 & _ & _ & Hk).
      rewrite Hstep in Hstep2. injection Hstep2 as <-. by rewrite Hk.
Qed.

(** *** The entry of one constraint *)

Lemma columns_seen_cons k r rows :
  columns_seen k (r :: rows)
  = (if row_named k r then option_list (column_of r) else []) ++ columns_seen k rows.
Proof.
  unfold columns_seen. simpl. destruct (row_named k r); [|done].
  simpl. by destruct (column_of r).
Qed.

Lemma columns_seen_app k l1 l2 :
  columns_seen k (l1 ++ l2) = columns_seen k l1 ++ columns_seen k l2.
Proof. unfold columns_seen. by rewrite List.filter_app, omap_app. Qed.

Lemma columns_seen_unnamed k rows :
  Forall (λ r, row_named k r = false) rows → columns_seen k rows = [].
Proof.
  induction 1 as [|r rows Hr _ IH]; [done|].
  by rewrite columns_seen_cons, Hr, IH.
Qed.

Lemma add_column_lookup r e l :
  e !! "columns" = Some (DList l) →
  add_column r e !! "columns" = Some (DList (l ++ (DVal <$> option_list (column_of r))))
  ∧ add_column r e !! "references" = e !! "references"
  ∧ add_column r e !! "type" = e !! "type".
Proof.
  intros Hl. unfold add_column. rewrite Hl. destruct (column_of r) as [col|]; simpl.
  - by rewrite lookup_insert_eq, !lookup_insert_ne.
  - by rewrite app_nil_r.
Qed.

(** Once a constraint has its entry, the later rows only append columns to
    it: its type and its reference block stay what they are. *)
Lemma entry_fold_Some k rows e l :
  e !! "columns" = Some (DList l) →
  ∃ e', foldl (entry_step k) (Some e) rows = Some e'
    ∧ e' !! "columns" = Some (DList (l ++ (DVal <$> columns_seen k rows)))
    ∧ e' !! "references" = e !! "references"
    ∧ e' !! "type" = e !! "type".
Proof.
  revert e l. induction rows as [|r rows IH]; intros e l Hl.
  - exists e. by rewrite app_nil_r.
  - simpl. rewrite columns_seen_cons. unfold entry_step at 2.
    destruct (row_named k r); simpl.
    + destruct (add_column_lookup r e l Hl) as (Hc & Hr & Ht).
      destruct (IH _ _ Hc) as (e' & He' & Hc' & Hr' & Ht').
      exists e'. rewrite He', Hc', Hr', Ht', fmap_app, app_assoc. done.
    + by apply IH.
Qed.

Lemma entry_fold_unnamed k rows :
  Forall (λ r, row_named k r = false) rows → foldl (entry_step k) None rows = None.
Proof.
  induction 1 as [|r rows Hr _ IH]; [done|].
  simpl. unfold entry_step at 2. by rewrite Hr.
Qed.

Lemma new_entry_lookup r :
  new_entry r !! "columns" = Some (DList [])
  ∧ new_entry r !! "references" = reference_of r
  ∧ new_entry r !! "type" = Some (DVal (get (cells r) "constraint_type" VNone)).
Proof. unfold new_entry. by destruct (reference_of r). Qed.

(** The entry of a constraint is made by its first row and collects the
    columns of all its rows. *)
Lemma entry_fold_first k pre r post :
  Forall (λ x, row_named k x = false) pre →
  row_named k r = true →
  ∃ e, foldl (entry_step k) None (pre ++ r :: post) = Some e
    ∧ e !! "columns" = Some (DList (DVal <$> columns_seen k (pre ++ r :: post)))
    ∧ e !! "references" = reference_of r
    ∧ e !! "type" = Some (DVal (get (cells r) "constraint_type" VNone)).
Proof.
  intros Hpre Hr.
  rewrite foldl_app, (entry_fold_unnamed _ _ Hpre). simpl.
  unfold entry_step at 2. rewrite Hr. simpl.
  destruct (new_entry_lookup r) as (Hc & Href & Ht).
  destruct (add_column_lookup r _ _ Hc) as (Hc1 & Href1 & Ht1).
  destruct (entry_fold_Some k post _ _ Hc1) as (e & He & Hc2 & Href2 & Ht2).
  exists e. split_and!; [done| |congruence|congruence].
  rewrite Hc2, columns_seen_app, (columns_seen_unnamed _ _ Hpre), columns_seen_cons, Hr.
  simpl. by rewrite fmap_app.
Qed.

(** The rows before the first row of a constraint. *)
Lemma first_named k rows r :
  r ∈ rows → row_named k r = true →
  ∃ pre r' post, rows = pre ++ r' :: post
    ∧ Forall (λ x, row_named k x = false) pre
    ∧ row_named k r' = true.
Proof.
  induction rows as [|x rows IH]; [by intros ?%elem_of_nil|].
  intros Hin Hr. destruct (row_named k x) eqn:Hx.
  - exists [], x, rows. by split_and!.
  - apply elem_of_cons in Hin as [->|Hin]; [congruence|].
    destruct (IH Hin Hr) as (pre & r' & post & -> & Hpre & Hr').
    exists (x :: pre), r', post. split_and!; [done| |done].
    by apply Forall_cons_2.
Qed.

(** *** The list of descriptors *)

Lemma has_name_descriptor k k0 e :
  entry_wf e → has_name k (DDict (e ∪ {[ "name" := DVal k0 ]})) = py_eqb k k0.
Proof.
  intros [Hn _]. unfold has_name.
  rewrite lookup_union_r by done. rewrite lookup_singleton_eq. apply py_eqb_sym.
Qed.

Lemma constraints_list_unnamed k cs :
  Forall (λ kv, entry_wf kv.2) cs →
  od_lookup k cs = None →
  List.filter (has_name k) (constraints_list cs) = [].
Proof.
  unfold constraints_list.
  induction 1 as [|[k0 e0] cs H0 _ IH]; [done|].
  rewrite fmap_cons. cbn [List.filter od_lookup].
  simpl in H0. rewrite (has_name_descriptor k k0 e0 H0).
  destruct (py_eqb k k0); [done | apply IH].
Qed.

(** The name of a constraint selects exactly one descriptor: the entry of
    that name, completed with the name as the accumulator spells it. *)
Lemma constraints_list_named k cs e :
  Forall (λ kv, entry_wf kv.2) cs →
  NoDup (od_keys cs) →
  od_lookup k cs = Some e →
  ∃ k0, key_of k0 = key_of k
    ∧ List.filter (has_name k) (constraints_list cs) = [DDict (e ∪ {[ "name" := DVal k0 ]})].
Proof.
  unfold constraints_list.
  induction 1 as [|[k0 e0] cs H0 Hcs IH]; [done|].
  rewrite fmap_cons. cbn [List.filter od_lookup]. unfold od_keys. rewrite fmap_cons.
  fold (od_keys cs). intros [Hk0 Hnd]%NoDup_cons.
  simpl in H0, Hk0. rewrite (has_name_descriptor k k0 e0 H0).
  destruct (py_eqb k k0) eqn:Hk.
  - intros [= ->]. apply py_eqb_true in Hk. exists k0. split; [done|].
    fold (constraints_list cs). rewrite constraints_list_unnamed; [done..|].
    apply od_lookup_None. by rewrite Hk.
  - by apply IH.
Qed.

Lemma rows_of_Some rows : rows_of (Some rows) = rows.
Proof. by destruct rows. Qed.

Lemma rows_of_falsy rows : rows_truthy rows = false → rows_of rows = [].
Proof. unfold rows_of. by intros ->. Qed.

Lemma descriptor_lookup (e : gmap string doc) k0 key x :
  e !! key = Some x → (e ∪ {[ "name" := DVal k0 ]}) !! key = Some x.
Proof. intros H. by apply lookup_union_Some_l. Qed.

(** The constraint rows of a table always make a list of descriptors. *)
Lemma build_constraints_ok rows :
  shaped ConstraintsQuery (rows_of rows) = true →
  ∃ descriptors, build_constraints rows = Ok descriptors.
Proof.
  intros H. unfold build_constraints.
  destruct (con_loop_lookup (rows_of rows) [] H) as (cs & -> & _);
    [apply Forall_nil_2 | apply NoDup_nil_2 |].
  by eexists.
Qed.

(** What [build_constraints] makes of the rows of one constraint. *)
Lemma build_constraints_named rows pre r post cname :
  shaped ConstraintsQuery rows = true →
  rows = pre ++ r :: post →
  Forall (λ x, row_named cname x = false) pre →
  row_named cname r = true →
  ∃ descriptors d,
    build_constraints (Some rows) = Ok descriptors
    ∧ List.filter (has_name cname) descriptors = [DDict d]
    ∧ d !! "columns" = Some (DList (DVal <$> columns_seen cname rows))
    ∧ d !! "type" = Some (DVal (get (cells r) "constraint_type" VNone))
    ∧ d !! "references" = reference_of r.
Proof.
  intros Hshape -> Hpre Hr. unfold build_constraints. rewrite rows_of_Some.
  destruct (con_loop_lookup _ [] Hshape) as (cs & -> & Hwf & Hnd & Hlook);
    [apply Forall_nil_2 | apply NoDup_nil_2 |].
  destruct (entry_fold_first cname pre r post Hpre Hr) as (e & He & Hc & Href & Ht).
  specialize (Hlook cname). simpl in Hlook. rewrite He in Hlook.
  destruct (constraints_list_named _ _ _ Hwf Hnd Hlook) as (k0 & _ & Hfilter).
  destruct (od_lookup_wf _ _ _ Hwf Hlook) as [Hname _].
  eexists _, _. split_and!; [done | exact Hfilter | ..].
  - by apply descriptor_lookup.
  - by apply descriptor_lookup.
  - rewrite lookup_union_l; [done|]. by rewrite lookup_singleton_ne.
Qed.

(** The statement, run on the sample catalog, returns the sample rows. *)
Lemma orders_constraints_from_catalog :
  ConstraintSql.constraints_query orders_catalog "app" "orders" = orders_constraints.
Proof. vm_compute. reflexivity. Qed.

Lemma check_row_from_catalog :
  ConstraintSql.constraints_query checked_catalog "app" "orders" = [check_row].
Proof. vm_compute. reflexivity. Qed.

(** A left join has, for each row on its left, as many rows as that row has
    matches, and one when it has none. *)
Lemma left_join_length {A B} (on : A → B → bool) (l : list A) (r : list B) :
  length (ConstraintSql.left_join on l r)
  = sum_list ((λ a, Nat.max 1 (length (List.filter (on a) r))) <$> l).
Proof.
  unfold ConstraintSql.left_join. induction l as [|a l IH]; [done|].
  cbn [flat_map]. rewrite length_app, IH, fmap_cons. cbn [sum_list]. f_equal.
  destruct (List.filter (on a) r) as [|b m]; [done|].
  rewrite length_fmap. simpl. lia.
Qed.

(** C4, at a table with a foreign key over two columns: the constraint has
    N = 2 referencing columns in [key_column_usage], the join of lines 228-234
    matches [constraint_column_usage] on the constraint name alone and returns
    N * N = 4 rows for it, and the column list of its descriptor has length 4,
    each referencing column twice.  (The reference block is the one of the
    first row, as the claim says: [build_constraints_named].) *)
Theorem composite_foreign_key_repeats_columns :
  length (List.filter
            (λ kcu, String.eqb (ConstraintSql.kcu_constraint_name kcu) "orders_customer_fk")
            (ConstraintSql.kcu_rows orders_catalog)) = 2
  ∧ length (List.filter (row_named (VStr "orders_customer_fk"))
              (ConstraintSql.constraints_query orders_catalog "app" "orders")) = 4
  ∧ ∃ descriptors d,
      build_constraints (Some (ConstraintSql.constraints_query orders_catalog "app" "orders"))
      = Ok descriptors
      ∧ List.filter (has_name (VStr "orders_customer_fk")) descriptors = [DDict d]
      ∧ d !! "type" = Some (DStr "FOREIGN KEY")
      ∧ d !! "columns"
        = Some (DList [DStr "customer_id"; DStr "customer_id";
                       DStr "region_id"; DStr "region_id"]).
Proof.
  split; [reflexivity|]. rewrite orders_constraints_from_catalog.
  split; [reflexivity|].
  destruct (build_constraints_named orders_constraints []
              (constraint_row (VStr "orders_customer_fk") (VStr "FOREIGN KEY")
                 (VStr "customer_id") (VStr "app") (VStr "customers") (VStr "id"))
              (tail orders_constraints) (VStr "orders_customer_fk"))
    as (descriptors & d & Hb & Hd & Hc & Ht & _);
    [reflexivity | reflexivity | apply Forall_nil_2 | reflexivity |].
  exists descriptors, d. split_and!; [exact Hb | exact Hd | exact Ht | exact Hc].
Qed.

(** C5, as the code has it: a constraint name that appears in at least one
    row of the result of the constraint statement gets exactly one descriptor,
    and the column list of that descriptor holds, in row order, the column
    name of each row of that name that has one; a row whose column name is
    null adds nothing (line 260). *)
Theorem constraint_columns_are_the_named_columns rows r cname :
  shaped ConstraintsQuery rows = true →
  r ∈ rows →
  row_named cname r = true →
  ∃ descriptors d,
    build_constraints (Some rows) = Ok descriptors
    ∧ List.filter (has_name cname) descriptors = [DDict d]
    ∧ d !! "columns" = Some (DList (DVal <$> columns_seen cname rows)).
Proof.
  intros Hshape Hin Hr.
  destruct (first_named cname rows r Hin Hr) as (pre & r' & post & Hrows & Hpre & Hr').
  destruct (build_constraints_named rows pre r' post cname Hshape Hrows Hpre Hr')
    as (descriptors & d & Hb & Hd & Hc & _).
  by exists descriptors, d.
Qed.

Lemma constraint_columns_are_the_named_columns_witness :
  ∃ descriptors d,
    build_constraints (Some orders_constraints) = Ok descriptors
    ∧ List.filter (has_name (VStr "orders_pkey")) descriptors = [DDict d]
    ∧ d !! "columns" = Some (DList [DStr "id"]).
Proof.
  apply (constraint_columns_are_the_named_columns orders_constraints
           (constraint_row (VStr "orders_pkey") (VStr "PRIMARY KEY") (VStr "id")
              VNone VNone VNone)
           (VStr "orders_pkey")).
  - reflexivity.
  - unfold orders_constraints. do 4 apply list_elem_of_further. apply list_elem_of_here.
  - reflexivity.
Defined.

(** C5 as stated fails on a CHECK constraint: its name appears in a row, its
    descriptor is emitted, and the column list of the descriptor is empty. *)
Lemma check_constraint_without_columns :
  shaped ConstraintsQuery [check_row] = true
  ∧ row_named (VStr "orders_total_check") check_row = true
  ∧ build_constraints (Some [check_row])
    = Ok [DDict {[ "name" := DStr "orders_total_check";
                   "type" := DStr "CHECK";
                   "columns" := DList [] ]}].
Proof. split_and!; [reflexivity | reflexivity | vm_compute; reflexivity]. Qed.

(** ** The two handlers *)

(** Both handlers have one shape. *)
Lemma describe_unfold connect kind db :
  describe connect kind db
  = try_response (
      sql_driver ← connect db;
      schema_rows ← execute_query sql_driver SchemasQuery;
      rows ← execute_query sql_driver (listing kind);
      if rows_truthy rows
      then infos ← entity_loop (assemble kind sql_driver) (default [] rows) [];
           mret (TextResponse (report kind db (schemas_of schema_rows) infos))
      else mret (TextResponse (empty_report kind db (schemas_of schema_rows)))).
Proof.
  destruct kind; unfold describe, _get_tables_impl, _get_views_impl;
    (destruct (connect db) as [drv|]; simpl; [|done]);
    (destruct (execute_query drv SchemasQuery); simpl; [|done]);
    (destruct (execute_query drv _) as [rows|]; simpl; [|done]);
    (destruct (rows_truthy rows); simpl; [|done]);
    by destruct (entity_loop _ _ _).
Qed.

Lemma shaped_listing_names kind rows :
  shaped (listing kind) rows = true →
  forallb (has_labels ["table_schema"; "table_name"]) rows = true.
Proof.
  unfold shaped. rewrite !forallb_forall. intros H r Hr. specialize (H r Hr).
  unfold has_labels in *. rewrite forallb_forall in H. simpl.
  rewrite !H; [done | destruct kind; simpl; tauto..].
Qed.

(** With the connection, the schemas and a listing at hand the operation
    answers with a report, whatever the collectors do. *)
Lemma describe_listed connect kind db drv srows rows :
  connect db = Ok drv →
  execute_query drv SchemasQuery = Ok srows →
  execute_query drv (listing kind) = Ok rows →
  shaped (listing kind) (default [] rows) = true →
  describe connect kind db
  = TextResponse
      (if rows_truthy rows
       then report kind db (schemas_of srows)
              (omap (entity_record (assemble kind drv)) (default [] rows))
       else empty_report kind db (schemas_of srows)).
Proof.
  intros Hc Hs Hl Hshape. rewrite describe_unfold, Hc. simpl. rewrite Hs. simpl.
  rewrite Hl. simpl. destruct (rows_truthy rows); [|done].
  by rewrite (entity_loop_records _ _ _ (shaped_listing_names _ _ Hshape)).
Qed.

(** The report of a listing with rows carries the total, and the total is the
    length of its entity list. *)
Lemma listed_report_total connect kind db drv rows d :
  connect db = Ok drv →
  execute_query drv (listing kind) = Ok rows →
  rows_truthy rows = true →
  describe connect kind db = TextResponse (DDict d) →
  ∃ entities, d !! entities_key kind = Some (DList entities)
    ∧ d !! total_key kind = Some (DInt (Z.of_nat (length entities))).
Proof.
  intros Hc Hl Ht. rewrite describe_unfold, Hc. simpl.
  destruct (execute_query drv SchemasQuery) as [srows|]; simpl; [|done].
  rewrite Hl. simpl. rewrite Ht.
  destruct (entity_loop _ _ _) as [infos|]; simpl; [|done].
  intros [= <-]. exists infos. by destruct kind.
Qed.

(** The early return: an empty entity list and no total. *)
Lemma empty_listing_report connect kind db drv srows rows :
  connect db = Ok drv →
  execute_query drv SchemasQuery = Ok srows →
  execute_query drv (listing kind) = Ok rows →
  rows_truthy rows = false →
  ∃ d, describe connect kind db = TextResponse (DDict d)
    ∧ d !! entities_key kind = Some (DList [])
    ∧ d !! total_key kind = None.
Proof.
  intros Hc Hs Hl Ht. rewrite describe_unfold, Hc. simpl. rewrite Hs. simpl.
  rewrite Hl. simpl. rewrite Ht. simpl. eexists. split; [reflexivity|].
  by destruct kind.
Qed.

(** C1, at a database whose listing returns no row: [describe_tables] and
    [describe_views] answer with a report whose entity list is empty and that
    has no total, where the claim asks for a total of 0.  (A report made after
    the loop, lines 313-318, has the total: [listed_report_total].) *)
Theorem empty_listing_report_has_no_total :
  ∀ kind, ∃ d,
    describe (λ _, Ok empty_database) kind "shop" = TextResponse (DDict d)
    ∧ d !! entities_key kind = Some (DList [])
    ∧ d !! total_key kind = None.
Proof.
  intros kind.
  by apply (empty_listing_report _ kind "shop" empty_database (Some []) (Some [])).
Qed.

(** A failure of the schema statement or of the listing statement is the
    answer of the operation, with the text of the exception. *)
Lemma describe_schema_failure connect kind db drv e :
  connect db = Ok drv →
  execute_query drv SchemasQuery = Raise e →
  describe connect kind db = ErrorResponse (str_exn e).
Proof. intros Hc Hs. rewrite describe_unfold, Hc. simpl. by rewrite Hs. Qed.

Lemma describe_listing_failure connect kind db drv srows e :
  connect db = Ok drv →
  execute_query drv SchemasQuery = Ok srows →
  execute_query drv (listing kind) = Raise e →
  describe connect kind db = ErrorResponse (str_exn e).
Proof.
  intros Hc Hs Hl. rewrite describe_unfold, Hc. simpl. rewrite Hs. simpl. by rewrite Hl.
Qed.

Lemma describe_connection_failure connect kind db e :
  connect db = Raise e →
  describe connect kind db = ErrorResponse (str_exn e).
Proof. intros Hc. by rewrite describe_unfold, Hc. Qed.

(** C3: on a connection whose listing statement returns rows of its SELECT
    list, the operation answers with an error response exactly when the schema
    statement or the listing statement fails; a failure of either is never
    answered with a report, and no failure of a collector reaches the caller. *)
Theorem operation_error_iff_top_level_failure connect kind db drv :
  connect db = Ok drv →
  (∀ rows, execute_query drv (listing kind) = Ok (Some rows) →
           shaped (listing kind) rows = true) →
  (∃ msg, describe connect kind db = ErrorResponse msg)
  ↔ (∃ e, execute_query drv SchemasQuery = Raise e)
    ∨ (∃ e, execute_query drv (listing kind) = Raise e).
Proof.
  intros Hc Hshape.
  destruct (execute_query drv SchemasQuery) as [srows|e1] eqn:Hs.
  - destruct (execute_query drv (listing kind)) as [rows|e2] eqn:Hl.
    + assert (shaped (listing kind) (default [] rows) = true) as Hrows
        by (destruct rows; [by apply Hshape | done]).
      rewrite (describe_listed _ _ _ _ _ _ Hc Hs Hl Hrows).
      split; [by intros [? ?] | by intros [[? ?]|[? ?]]].
    + rewrite (describe_listing_failure _ _ _ _ _ _ Hc Hs Hl).
      split; [right|]; by eexists.
  - rewrite (describe_schema_failure _ _ _ _ _ Hc Hs).
    split; [left|]; by eexists.
Qed.

Lemma operation_error_iff_top_level_failure_witness :
  (∃ msg, describe connect_shop Table "shop" = ErrorResponse msg)
  ↔ (∃ e, execute_query shop SchemasQuery = Raise e)
    ∨ (∃ e, execute_query shop (listing Table) = Raise e).
Proof.
  apply (operation_error_iff_top_level_failure connect_shop Table "shop" shop).
  - reflexivity.
  - intros rows [= <-]. reflexivity.
Defined.

(** ** One entity *)

(** The record of an entity carries the two names it was assembled for. *)
Lemma assemble_describes kind drv row s n info :
  assemble kind drv row s n = Ok info → describes s n info.
Proof.
  destruct kind; unfold assemble, table_info, view_info; intros H;
    repeat (apply bind_Ok in H as (? & _ & H));
    injection H as <-; by eexists.
Qed.

(** A collector statement that fails makes the whole body fail, whatever the
    other statements return. *)
Lemma assemble_raises kind drv row s n q e :
  q ∈ collectors kind →
  execute_param_query drv q [s; n] = Raise e →
  is_ok (assemble kind drv row s n) = false.
Proof.
  intros Hq He.
  destruct (assemble kind drv row s n) as [info|] eqn:H; [|done].
  exfalso. destruct kind; unfold assemble, table_info, view_info in H; simpl in Hq.
  - apply bind_Ok in H as (col_rows & Hcol & H).
    apply bind_Ok in H as (columns & _ & H).
    apply bind_Ok in H as (con_rows & Hcon & H).
    apply bind_Ok in H as (constraints & _ & H).
    apply bind_Ok in H as (idx_rows & Hidx & H).
    repeat (apply elem_of_cons in Hq as [->|Hq]; [congruence|]).
    by apply elem_of_nil in Hq.
  - apply bind_Ok in H as (col_rows & Hcol & H).
    apply bind_Ok in H as (columns & _ & H).
    apply bind_Ok in H as (dep_rows & Hdep & H).
    repeat (apply elem_of_cons in Hq as [->|Hq]; [congruence|]).
    by apply elem_of_nil in Hq.
Qed.

Lemma entity_record_Some body row info :
  entity_record body row = Some info →
  ∃ s n, cells row !! "table_schema" = Some s
    ∧ cells row !! "table_name" = Some n
    ∧ body row s n = Ok info.
Proof.
  unfold entity_record.
  destruct (cells row !! "table_schema") as [s|]; [|done].
  destruct (cells row !! "table_name") as [n|]; [|done].
  destruct (body row s n) eqn:Hb; [|done].
  intros [= <-]. by exists s, n.
Qed.

(** C2: when a collector statement fails for a listed entity, the operation
    still answers with a report; the entity list of the report is made of the
    records of the other listed rows, as if the entity had not been listed,
    the total is the length of that list, and no record of the report is a
    record of the entity. *)
Theorem failed_entity_is_omitted connect kind db drv srows pre row post s n q e :
  connect db = Ok drv →
  execute_query drv SchemasQuery = Ok srows →
  execute_query drv (listing kind) = Ok (Some (pre ++ row :: post)) →
  shaped (listing kind) (pre ++ row :: post) = true →
  cells row !! "table_schema" = Some s →
  cells row !! "table_name" = Some n →
  q ∈ collectors kind →
  execute_param_query drv q [s; n] = Raise e →
  ∃ entities,
    describe connect kind db = TextResponse (report kind db (schemas_of srows) entities)
    ∧ entities = omap (entity_record (assemble kind drv)) (pre ++ post)
    ∧ ∀ info, info ∈ entities → ¬ describes s n info.
Proof.
  intros Hc Hs Hl Hshape Hsn Hn Hq He.
  pose proof (assemble_raises kind drv) as Hraise.
  assert (entity_record (assemble kind drv) row = None) as Hrow.
  { unfold entity_record. rewrite Hsn, Hn.
    specialize (Hraise row s n q e Hq He). by destruct (assemble kind drv row s n). }
  exists (omap (entity_record (assemble kind drv)) (pre ++ post)).
  split_and!; [|done|].
  - rewrite (describe_listed _ _ _ _ _ _ Hc Hs Hl Hshape).
    assert (rows_truthy (Some (pre ++ row :: post)) = true) as -> by by destruct pre.
    cbn [default]. unfold id. rewrite !omap_app. do 3 f_equal.
    change (omap ?f (row :: post)) with
      (match f row with Some y => y :: omap f post | None => omap f post end).
    by rewrite Hrow.
  - intros info [row' [_ Hinfo]]%list_elem_of_omap (m & -> & Hms & Hmn).
    apply entity_record_Some in Hinfo as (s' & n' & _ & _ & Hbody).
    pose proof (assemble_describes _ _ _ _ _ _ Hbody) as (m' & [= <-] & Hms' & Hmn').
    assert (s' = s) as -> by congruence. assert (n' = n) as -> by congruence.
    specialize (Hraise row' s n q e Hq He). by rewrite Hbody in Hraise.
Qed.

Lemma failed_entity_is_omitted_witness :
  ∃ entities,
    describe connect_shop Table "shop"
    = TextResponse (report Table "shop" (schemas_of (Some (Sql.schemas_query sample_catalog)))
                      entities)
    ∧ entities = omap (entity_record (assemble Table shop)) ([] ++ [table_row "app" "users"])
    ∧ ∀ info, info ∈ entities → ¬ describes (VStr "app") (VStr "orders") info.
Proof.
  apply (failed_entity_is_omitted connect_shop Table "shop" shop
           (Some (Sql.schemas_query sample_catalog))
           [] (table_row "app" "orders") [table_row "app" "users"]
           (VStr "app") (VStr "orders") ColumnsQuery
           (DriverError "permission denied for table orders")).
  - reflexivity.
  - reflexivity.
  - reflexivity.
  - reflexivity.
  - reflexivity.
  - reflexivity.
  - apply list_elem_of_here.
  - reflexivity.
Defined.

(** *** Collecting descriptors *)

Lemma collect_ok {A B} (f : A → result B) (l : list A) :
  (∀ x, x ∈ l → is_ok (f x) = true) → ∃ ys, collect f l = Ok ys.
Proof.
  induction l as [|x l IH]; intros H; simpl; [by eexists|].
  specialize (H x (list_elem_of_here x l)) as Hx.
  destruct (f x) as [y|]; [|done]. simpl.
  destruct IH as [ys ->]; [|by eexists].
  intros z Hz. apply H. by apply list_elem_of_further.
Qed.

Lemma collect_Forall {A B} (f : A → result B) (P : B → Prop) (l : list A) ys :
  collect f l = Ok ys →
  (∀ x y, x ∈ l → f x = Ok y → P y) →
  Forall P ys.
Proof.
  revert ys. induction l as [|x l IH]; intros ys H HP; simpl in H.
  - injection H as <-. apply Forall_nil_2.
  - apply bind_Ok in H as (y & Hy & H). apply bind_Ok in H as (ys' & Hys & H).
    injection H as <-. apply Forall_cons_2.
    + eapply HP; [apply list_elem_of_here | done].
    + apply IH; [done|]. intros z w Hz. apply HP. by apply list_elem_of_further.
Qed.

Lemma col_info_ok r :
  has_labels (select_list ColumnsQuery) r = true → is_ok (col_info r) = true.
Proof. intros H. by destruct (col_info_spec r H) as (d & -> & _). Qed.

Lemma index_info_ok r :
  has_labels (select_list IndexesQuery) r = true → is_ok (index_info r) = true.
Proof.
  intros H.
  cell H "indexname" name Hname. cell H "indexdef" def Hdef.
  cell H "index_size" sz Hsize. cell H "is_unique" uq Huq.
  cell H "is_primary" pk Hpk.
  unfold index_info.
  by rewrite (getitem_Some _ _ _ Hname), (getitem_Some _ _ _ Hdef),
    (getitem_Some _ _ _ Hsize), (getitem_Some _ _ _ Huq), (getitem_Some _ _ _ Hpk).
Qed.

Lemma dependency_info_ok r :
  has_labels (select_list DependenciesQuery) r = true →
  is_ok (dependency_info r) = true.
Proof.
  intros H.
  cell H "source_schema" schema Hschema. cell H "source_table" name Hname.
  cell H "source_type" kind Hkind.
  unfold dependency_info.
  by rewrite (getitem_Some _ _ _ Hschema), (getitem_Some _ _ _ Hname),
    (getitem_Some _ _ _ Hkind).
Qed.

Lemma collect_shaped_ok q f rows :
  (∀ r, has_labels (select_list q) r = true → is_ok (f r) = true) →
  shaped q rows = true →
  ∃ ys : list doc, collect f rows = Ok ys.
Proof.
  intros Hf Hrows. apply collect_ok. intros r Hr.
  by eapply Hf, shaped_elem.
Qed.

(** When its collector statements all succeed, an entity has its record, and
    the record holds a list for each of them: the empty list for a statement
    without rows. *)
Lemma assemble_ok kind drv row s n :
  (∀ q, q ∈ collectors kind →
        ∃ rows, execute_param_query drv q [s; n] = Ok rows
                ∧ shaped q (rows_of rows) = true) →
  ∃ m, assemble kind drv row s n = Ok (DDict m)
    ∧ (∀ q, q ∈ collectors kind → ∃ l, m !! field_of q = Some (DList l))
    ∧ (∀ q rows, q ∈ collectors kind →
         execute_param_query drv q [s; n] = Ok rows →
         rows_truthy rows = false →
         m !! field_of q = Some (DList [])).
Proof.
  intros H. destruct kind; unfold assemble, table_info, view_info.
  - destruct (H ColumnsQuery) as (col_rows & Hcol & Hcols); [set_solver|].
    destruct (H ConstraintsQuery) as (con_rows & Hcon & Hcons); [set_solver|].
    destruct (H IndexesQuery) as (idx_rows & Hidx & Hidxs); [set_solver|].
    destruct (collect_shaped_ok _ _ _ col_info_ok Hcols) as [columns Hcolumns].
    destruct (build_constraints_ok _ Hcons) as [constraints Hconstraints].
    destruct (collect_shaped_ok _ _ _ index_info_ok Hidxs) as [indexes Hindexes].
    rewrite Hcol. simpl. rewrite Hcolumns. simpl. rewrite Hcon. simpl.
    rewrite Hconstraints. simpl. rewrite Hidx. simpl. rewrite Hindexes. simpl.
    eexists. split_and!; [reflexivity|..].
    + intros q Hq. simpl in Hq.
      repeat (apply elem_of_cons in Hq as [->|Hq]; [by eexists|]).
      by apply elem_of_nil in Hq.
    + intros q rows Hq Hrows Hfalsy. simpl in Hq.
      apply rows_of_falsy in Hfalsy.
      apply elem_of_cons in Hq as [->|Hq].
      { rewrite Hcol in Hrows. injection Hrows as <-.
        rewrite Hfalsy in Hcolumns. by injection Hcolumns as <-. }
      apply elem_of_cons in Hq as [->|Hq].
      { rewrite Hcon in Hrows. injection Hrows as <-.
        unfold build_constraints in Hconstraints.
        rewrite Hfalsy in Hconstraints. by injection Hconstraints as <-. }
      apply elem_of_cons in Hq as [->|Hq].
      { rewrite Hidx in Hrows. injection Hrows as <-.
        rewrite Hfalsy in Hindexes. by injection Hindexes as <-. }
      by apply elem_of_nil in Hq.
  - destruct (H ColumnsQuery) as (col_rows & Hcol & Hcols); [set_solver|].
    destruct (H DependenciesQuery) as (dep_rows & Hdep & Hdeps); [set_solver|].
    destruct (collect_shaped_ok _ _ _ col_info_ok Hcols) as [columns Hcolumns].
    destruct (collect_shaped_ok _ _ _ dependency_info_ok Hdeps) as [deps Hdependencies].
    rewrite Hcol. simpl. rewrite Hcolumns. simpl. rewrite Hdep. simpl.
    rewrite Hdependencies. simpl.
    eexists. split_and!; [reflexivity|..].
    + intros q Hq. simpl in Hq.
      repeat (apply elem_of_cons in Hq as [->|Hq]; [by eexists|]).
      by apply elem_of_nil in Hq.
    + intros q rows Hq Hrows Hfalsy. simpl in Hq.
      apply rows_of_falsy in Hfalsy.
      apply elem_of_cons in Hq as [->|Hq].
      { rewrite Hcol in Hrows. injection Hrows as <-.
        rewrite Hfalsy in Hcolumns. by injection Hcolumns as <-. }
      apply elem_of_cons in Hq as [->|Hq].
      { rewrite Hdep in Hrows. injection Hrows as <-.
        rewrite Hfalsy in Hdependencies. by injection Hdependencies as <-. }
      by apply elem_of_nil in Hq.
Qed.

(** C9: a listed entity whose collector statements all succeed, with rows of
    their SELECT lists, has its record in the report, also when some of them
    return no row; the record holds a list for each collector, and the empty
    list for each collector without rows. *)
Theorem entity_with_empty_results_is_included
    connect kind db drv srows pre row post s n :
  connect db = Ok drv →
  execute_query drv SchemasQuery = Ok srows →
  execute_query drv (listing kind) = Ok (Some (pre ++ row :: post)) →
  shaped (listing kind) (pre ++ row :: post) = true →
  cells row !! "table_schema" = Some s →
  cells row !! "table_name" = Some n →
  (∀ q, q ∈ collectors kind →
        ∃ rows, execute_param_query drv q [s; n] = Ok rows
                ∧ shaped q (rows_of rows) = true) →
  ∃ entities m,
    describe connect kind db = TextResponse (report kind db (schemas_of srows) entities)
    ∧ DDict m ∈ entities
    ∧ describes s n (DDict m)
    ∧ (∀ q, q ∈ collectors kind → ∃ l, m !! field_of q = Some (DList l))
    ∧ (∀ q rows, q ∈ collectors kind →
         execute_param_query drv q [s; n] = Ok rows →
         rows_truthy rows = false →
         m !! field_of q = Some (DList [])).
Proof.
  intros Hc Hs Hl Hshape Hsn Hn Hq.
  destruct (assemble_ok kind drv row s n Hq) as (m & Hm & Hlists & Hempty).
  exists (omap (entity_record (assemble kind drv)) (pre ++ row :: post)), m.
  split_and!; [| |by eapply assemble_describes|done..].
  - rewrite (describe_listed _ _ _ _ _ _ Hc Hs Hl Hshape).
    by assert (rows_truthy (Some (pre ++ row :: post)) = true) as -> by by destruct pre.
  - apply list_elem_of_omap. exists row. split; [set_solver|].
    unfold entity_record. by rewrite Hsn, Hn, Hm.
Qed.

Lemma entity_with_empty_results_is_included_witness :
  ∃ entities m,
    describe connect_shop Table "shop"
    = TextResponse (report Table "shop" (schemas_of (Some (Sql.schemas_query sample_catalog)))
                      entities)
    ∧ DDict m ∈ entities
    ∧ describes (VStr "app") (VStr "users") (DDict m)
    ∧ (∀ q, q ∈ collectors Table → ∃ l, m !! field_of q = Some (DList l))
    ∧ (∀ q rows, q ∈ collectors Table →
         execute_param_query shop q [VStr "app"; VStr "users"] = Ok rows →
         rows_truthy rows = false →
         m !! field_of q = Some (DList [])).
Proof.
  apply (entity_with_empty_results_is_included connect_shop Table "shop" shop
           (Some (Sql.schemas_query sample_catalog))
           [table_row "app" "orders"] (table_row "app" "users") []
           (VStr "app") (VStr "users")).
  - reflexivity.
  - reflexivity.
  - reflexivity.
  - reflexivity.
  - reflexivity.
  - reflexivity.
  - intros q Hq. simpl in Hq.
    repeat (apply elem_of_cons in Hq as [->|Hq]; [by eexists|]).
    by apply elem_of_nil in Hq.
Defined.

(** ** Dependencies of a view *)

Lemma dep_type_known k : k ∈ ["r"; "v"; "m"] → known_kind (DVal (dep_type (VStr k))).
Proof.
  unfold known_kind. intros Hk.
  repeat (apply elem_of_cons in Hk as [->|Hk]; [by auto|]).
  by apply elem_of_nil in Hk.
Qed.

Lemma known_kind_not_unknown d : known_kind d → d ≠ DStr "unknown".
Proof. by intros [-> | [-> | ->]]. Qed.

(** A dependency row that passes the filter of the statement gets one of the
    three kinds of the map. *)
Lemma dependency_info_known r dep :
  relkind_in_rvm r = true →
  dependency_info r = Ok dep →
  ∃ dm k, dep = DDict dm ∧ dm !! "type" = Some k ∧ known_kind k.
Proof.
  unfold relkind_in_rvm, dependency_info. intros Hr H.
  apply bind_Ok in H as (schema & _ & H). apply bind_Ok in H as (name & _ & H).
  apply bind_Ok in H as (source_type & Ht%getitem_Ok & H). injection H as <-.
  rewrite Ht in Hr. destruct source_type as [| | |k]; try done.
  apply bool_decide_eq_true in Hr.
  eexists _, _. split_and!; [reflexivity | reflexivity | by apply dep_type_known].
Qed.

Lemma entity_loop_Forall (P : doc → Prop) body rows acc infos :
  Forall P acc →
  (∀ row s n info, body row s n = Ok info → P info) →
  entity_loop body rows acc = Ok infos →
  Forall P infos.
Proof.
  intros Hacc HP. revert acc Hacc. induction rows as [|row rows IH]; intros acc Hacc H.
  - simpl in H. by injection H as <-.
  - simpl in H. apply bind_Ok in H as (s & _ & H). apply bind_Ok in H as (n & _ & H).
    eapply IH; [|exact H].
    destruct (body row s n) as [info|] eqn:Hb; [|done].
    apply Forall_app. split; [done|]. apply Forall_cons_2; [by eapply HP | apply Forall_nil_2].
Qed.

(** C10: when the rows of the dependency statement satisfy its filter on
    [relkind], every view record of a [describe_views] report has a list of
    dependencies, and the kind of each of them is "table", "view" or
    "materialized view", never "unknown". *)
Theorem dependency_kinds_are_known connect db drv d views :
  connect db = Ok drv →
  (∀ params rows, execute_param_query drv DependenciesQuery params = Ok rows →
                  forallb relkind_in_rvm (rows_of rows) = true) →
  _get_views_impl connect db = TextResponse (DDict d) →
  d !! "views" = Some (DList views) →
  ∀ info, info ∈ views →
    ∃ m deps, info = DDict m
      ∧ m !! "dependencies" = Some (DList deps)
      ∧ ∀ dep, dep ∈ deps →
          ∃ dm k, dep = DDict dm ∧ dm !! "type" = Some k
                  ∧ known_kind k ∧ k ≠ DStr "unknown".
Proof.
  intros Hc Hfilter Hresp Hviews.
  change (_get_views_impl connect db) with (describe connect View db) in Hresp.
  rewrite describe_unfold, Hc in Hresp. simpl in Hresp.
  destruct (execute_query drv SchemasQuery) as [srows|]; simpl in Hresp; [|done].
  destruct (execute_query drv ViewsQuery) as [rows|]; simpl in Hresp; [|done].
  destruct (rows_truthy rows); simpl in Hresp.
  - destruct (entity_loop _ _ _) as [infos|] eqn:Hloop; simpl in Hresp; [|done].
    injection Hresp as <-. injection Hviews as <-.
    apply Forall_forall. eapply entity_loop_Forall; [apply Forall_nil_2| |exact Hloop].
    intros row s n info Hinfo. unfold view_info in Hinfo.
    apply bind_Ok in Hinfo as (col_rows & _ & Hinfo).
    apply bind_Ok in Hinfo as (columns & _ & Hinfo).
    apply bind_Ok in Hinfo as (dep_rows & Hdep & Hinfo).
    apply bind_Ok in Hinfo as (deps & Hdeps & Hinfo).
    injection Hinfo as <-. eexists _, deps. split_and!; [reflexivity..|].
    apply Forall_forall. eapply collect_Forall; [exact Hdeps|].
    intros r dep Hr Hdep'.
    apply Hfilter in Hdep. rewrite forallb_forall in Hdep.
    apply list_elem_of_In, Hdep in Hr.
    destruct (dependency_info_known r dep Hr Hdep') as (dm & k & -> & Hk & Hknown).
    exists dm, k. split_and!; [done..|by apply known_kind_not_unknown].
  - injection Hresp as <-. injection Hviews as <-. by intros info ?%elem_of_nil.
Qed.

Lemma dependency_kinds_are_known_witness :
  ∃ d views,
    _get_views_impl connect_shop "shop" = TextResponse (DDict d)
    ∧ d !! "views" = Some (DList views)
    ∧ length views = 1
    ∧ ∀ info, info ∈ views →
        ∃ m deps, info = DDict m
          ∧ m !! "dependencies" = Some (DList deps)
          ∧ ∀ dep, dep ∈ deps →
              ∃ dm k, dep = DDict dm ∧ dm !! "type" = Some k
                      ∧ known_kind k ∧ k ≠ DStr "unknown".
Proof.
  eexists _, _. split; [vm_compute; reflexivity|].
  split; [reflexivity|]. split; [reflexivity|].
  eapply (dependency_kinds_are_known connect_shop "shop" shop).
  - reflexivity.
  - intros params rows [= <-]. reflexivity.
  - vm_compute. reflexivity.
  - reflexivity.
Defined.

(** ** The schema list *)

Lemma like_percent s : Sql.like "%" s = true.
Proof. induction s as [|a s IH]; [done|]. simpl in *. by rewrite IH. Qed.

(** ['pg_%'] matches the names that start with [pg] and go on with at least
    one more character, whatever that character is. *)
Lemma like_pg s :
  Sql.like "pg_%" s = true ↔ ∃ c rest, s = String "p" (String "g" (String c rest)).
Proof.
  destruct s as [|a [|b [|c rest]]].
  - split; [done | by intros (? & ? & ?)].
  - simpl. rewrite andb_false_r. split; [done | by intros (? & ? & ?)].
  - simpl. rewrite !andb_false_r. split; [done | by intros (? & ? & ?)].
  - change (Sql.like "pg_%" (String a (String b (String c rest))))
      with (Ascii.eqb "p" a && (Ascii.eqb "g" b && Sql.like "%" rest)).
    rewrite like_percent, andb_true_r, andb_true_iff, !Ascii.eqb_eq.
    split; [intros [<- <-]; by eexists _, _ | by intros (? & ? & [= -> -> _ _])].
Qed.

(** The names with the literal prefix [pg_] are among them. *)
Lemma prefix_pg_like s : String.prefix "pg_" s = true → Sql.like "pg_%" s = true.
Proof.
  destruct s as [|a [|b [|c rest]]]; cbn [String.prefix]; try done.
  - by destruct (ascii_dec _ a).
  - destruct (ascii_dec _ a); [|done]. by destruct (ascii_dec _ b).
  - destruct (ascii_dec _ a) as [<-|]; [|done].
    destruct (ascii_dec _ b) as [<-|]; [|done]. intros _. apply like_pg. by eexists _, _.
Qed.

#[local] Instance by_schema_name_total : Total Sql.by_schema_name.
Proof. intros a b. unfold Sql.by_schema_name. apply total, _. Qed.

(** The schema statement returns the rows of the catalog that pass its WHERE
    clause, ordered by name. *)
Lemma schemas_query_sorted_filter catalog :
  ∃ l, Sql.schemas_query catalog = Sql.schema_row <$> l
    ∧ l ≡ₚ List.filter Sql.schemas_where catalog
    ∧ Sorted Sql.by_schema_name l.
Proof.
  eexists. split_and!; [reflexivity | apply merge_sort_Permutation |].
  apply Sorted_merge_sort, _.
Qed.

(** The schema list of a report holds the cells of the rows of the schema
    statement, in their order. *)
Lemma report_schemas connect kind db drv rows d :
  connect db = Ok drv →
  execute_query drv SchemasQuery = Ok (Some rows) →
  describe connect kind db = TextResponse (DDict d) →
  d !! "schemas" = Some (DList ((λ row, DDict (DVal <$> cells row)) <$> rows)).
Proof.
  intros Hc Hs. rewrite describe_unfold, Hc. simpl. rewrite Hs. simpl.
  assert (schemas_of (Some rows) = (λ row, DDict (DVal <$> cells row)) <$> rows) as ->
    by by destruct rows.
  destruct (execute_query drv (listing kind)) as [lrows|]; simpl; [|done].
  destruct (rows_truthy lrows); simpl.
  - destruct (entity_loop _ _ _); simpl; [|done]. intros [= <-]. by destruct kind.
  - intros [= <-]. by destruct kind.
Qed.

(** C8, at a catalog with a schema [pgboss]: the name does not begin with the
    literal prefix [pg_] and is not [information_schema], yet the schema is
    not in the schema list of the report, because the underscore of
    [NOT LIKE 'pg_%'] stands for any character. *)
Theorem schema_list_excludes_pgboss :
  {| Sql.schema_name := "pgboss"; Sql.schema_owner := "app" |} ∈ sample_catalog
  ∧ String.prefix "pg_" "pgboss" = false
  ∧ Sql.like "pg_%" "pgboss" = true
  ∧ ∀ kind, ∃ d,
      describe connect_shop kind "shop" = TextResponse (DDict d)
      ∧ d !! "schemas"
        = Some (DList
            [ DDict {[ "schema_name" := DStr "app"; "schema_owner" := DStr "app";
                       "schema_type" := DStr "user" ]};
              DDict {[ "schema_name" := DStr "public"; "schema_owner" := DStr "postgres";
                       "schema_type" := DStr "user" ]} ]).
Proof.
  split_and!; [set_solver | reflexivity | reflexivity |].
  intros kind. destruct kind; (eexists; split; [vm_compute; reflexivity | reflexivity]).
Qed.

(** * Further properties *)

(** ** Column descriptors, key by key *)

Lemma has_labels_false labels r :
  has_labels labels r = false → ∃ l, l ∈ labels ∧ cells r !! l = None.
Proof.
  unfold has_labels. induction labels as [|l labels IH]; simpl; [done|].
  destruct (cells r !! l) as [v|] eqn:Hl.
  - rewrite bool_decide_eq_true_2 by by eexists. simpl.
    intros (l' & Hl' & Hn)%IH. exists l'. split; [by apply list_elem_of_further | done].
  - intros _. exists l. split; [apply list_elem_of_here | done].
Qed.

(** X1: a column descriptor is made exactly when the row carries the five
    labels that lines 192-196 index it with; the four labels read with [.get]
    are never required. *)
Theorem col_info_ok_iff_mandatory_labels r :
  is_ok (col_info r) = true ↔ has_labels mandatory_column_labels r = true.
Proof.
  split.
  - intros H. destruct (has_labels mandatory_column_labels r) eqn:Hl; [done|].
    apply has_labels_false in Hl as (l & Hl & Hnone).
    unfold col_info, getitem in H. unfold mandatory_column_labels in Hl.
    repeat (apply elem_of_cons in Hl as [->|Hl];
            [rewrite Hnone in H; simpl in H;
             repeat (match type of H with
                     | context [cells r !! ?k] => destruct (cells r !! k); simpl in H
                     end); done|]).
    by apply elem_of_nil in Hl.
  - intros H.
    cell H "column_name" name Hname. cell H "data_type" ty Hty.
    cell H "is_nullable" nl Hnl. cell H "column_default" df Hdf.
    cell H "ordinal_position" pos Hpos.
    unfold col_info.
    rewrite (getitem_Some _ _ _ Hname), (getitem_Some _ _ _ Hty),
      (getitem_Some _ _ _ Hnl), (getitem_Some _ _ _ Hdf), (getitem_Some _ _ _ Hpos).
    simpl. unfold get, getitem.
    destruct (cells r !! "character_maximum_length") as [len|]; simpl;
      [destruct (truthy len)|]; simpl;
      (destruct (cells r !! "numeric_precision") as [pr|]; simpl;
        [destruct (truthy pr)|]; simpl);
      (destruct (cells r !! "numeric_scale") as [scl|]; simpl;
        [destruct (truthy scl)|]; simpl); done.
Qed.

(** X2: the keys of a column descriptor are the six fixed ones and, for each
    of the three optional cells, its key when the cell is truthy; the five
    indexed cells are passed through as they are (so [is_nullable] stays the
    text of the catalog). *)
Theorem col_info_keys r d :
  col_info r = Ok (DDict d) →
  dom d = {[ "name"; "data_type"; "is_nullable"; "default"; "position"; "comment" ]}
          ∪ optional_key r "character_maximum_length" "max_length"
          ∪ optional_key r "numeric_precision" "precision"
          ∪ optional_key r "numeric_scale" "scale"
  ∧ d !! "name" = DVal <$> cells r !! "column_name"
  ∧ d !! "data_type" = DVal <$> cells r !! "data_type"
  ∧ d !! "is_nullable" = DVal <$> cells r !! "is_nullable"
  ∧ d !! "default" = DVal <$> cells r !! "column_default"
  ∧ d !! "position" = DVal <$> cells r !! "ordinal_position".
Proof.
  unfold col_info, optional_key. intros H.
  apply bind_Ok in H as (name & Hname%getitem_Ok & H).
  apply bind_Ok in H as (ty & Hty%getitem_Ok & H).
  apply bind_Ok in H as (nl & Hnl%getitem_Ok & H).
  apply bind_Ok in H as (df & Hdf%getitem_Ok & H).
  apply bind_Ok in H as (pos & Hpos%getitem_Ok & H).
  rewrite Hname, Hty, Hnl, Hdf, Hpos.
  apply bind_Ok in H as (d1 & H1 & H). apply bind_Ok in H as (d2 & H2 & H).
  apply bind_Ok in H as (d3 & H3 & H). injection H as <-.
  destruct (truthy (get (cells r) "character_maximum_length" VNone));
    [apply bind_Ok in H1 as (v1 & _ & H1)|]; injection H1 as <-;
    (destruct (truthy (get (cells r) "numeric_precision" VNone));
      [apply bind_Ok in H2 as (v2 & _ & H2)|]; injection H2 as <-);
    (destruct (truthy (get (cells r) "numeric_scale" VNone));
      [apply bind_Ok in H3 as (v3 & _ & H3)|]; injection H3 as <-);
    (split; [rewrite !dom_insert_L, dom_singleton_L; set_solver | by split_and!]).
Qed.

Lemma col_info_keys_witness :
  ∃ d, col_info integer_column = Ok (DDict d)
    ∧ dom d = {[ "name"; "data_type"; "is_nullable"; "default"; "position"; "comment";
                 "precision" ]}
    ∧ d !! "is_nullable" = Some (DStr "NO").
Proof.
  eexists. split; [vm_compute; reflexivity|].
  edestruct (col_info_keys integer_column) as (Hdom & _ & _ & Hnl & _);
    [vm_compute; reflexivity|].
  split; [|exact Hnl]. rewrite Hdom. unfold optional_key. simpl. set_solver.
Defined.

(** ** One descriptor per row, in row order *)

Lemma collect_Forall2 {A B} (f : A → result B) (l : list A) (ys : list B) :
  collect f l = Ok ys ↔ Forall2 (λ x y, f x = Ok y) l ys.
Proof.
  revert ys. induction l as [|x l IH]; intros ys; simpl.
  - split; [intros [= <-]; constructor | by intros ->%Forall2_nil_inv_l].
  - rewrite bind_Ok. split.
    + intros (y & Hy & H). apply bind_Ok in H as (ys' & Hys & [= <-]).
      constructor; [done | by apply IH].
    + intros (y & ys' & Hy & Hys & ->)%Forall2_cons_inv_l.
      exists y. split; [done|]. apply IH in Hys. by rewrite Hys.
Qed.

(** X3: the column list of an entity record, table or view, has one
    descriptor per row of the column statement, in the order of the rows. *)
Theorem columns_follow_column_rows kind drv row s n m :
  assemble kind drv row s n = Ok (DDict m) →
  ∃ col_rows columns,
    execute_param_query drv ColumnsQuery [s; n] = Ok col_rows
    ∧ m !! "columns" = Some (DList columns)
    ∧ Forall2 (λ r c, col_info r = Ok c) (rows_of col_rows) columns.
Proof.
  destruct kind; unfold assemble, table_info, view_info; intros H;
    apply bind_Ok in H as (col_rows & Hcol & H);
    apply bind_Ok in H as (columns & Hcolumns%collect_Forall2 & H);
    repeat (apply bind_Ok in H as (? & _ & H));
    injection H as <-; by exists col_rows, columns.
Qed.

Lemma columns_follow_column_rows_witness :
  ∃ m,
    assemble Table shop (table_row "app" "users") (VStr "app") (VStr "users") = Ok (DDict m)
    ∧ ∃ col_rows columns,
        execute_param_query shop ColumnsQuery [VStr "app"; VStr "users"] = Ok col_rows
        ∧ m !! "columns" = Some (DList columns)
        ∧ Forall2 (λ r c, col_info r = Ok c) (rows_of col_rows) columns.
Proof.
  eexists. split; [vm_compute; reflexivity|].
  apply (columns_follow_column_rows Table shop (table_row "app" "users")
           (VStr "app") (VStr "users")).
  vm_compute. reflexivity.
Defined.

Lemma index_info_Ok r i :
  index_info r = Ok i ↔
  has_labels (select_list IndexesQuery) r = true
  ∧ i = DDict {[ "name" := DVal (get (cells r) "indexname" VNone);
                 "definition" := DVal (get (cells r) "indexdef" VNone);
                 "size" := DVal (get (cells r) "index_size" VNone);
                 "is_unique" := DVal (get (cells r) "is_unique" VNone);
                 "is_primary" := DVal (get (cells r) "is_primary" VNone) ]}.
Proof.
  unfold index_info, get. split.
  - intros H.
    apply bind_Ok in H as (name & Hname%getitem_Ok & H).
    apply bind_Ok in H as (def & Hdef%getitem_Ok & H).
    apply bind_Ok in H as (sz & Hsize%getitem_Ok & H).
    apply bind_Ok in H as (uq & Huq%getitem_Ok & H).
    apply bind_Ok in H as (pk & Hpk%getitem_Ok & H).
    injection H as <-. rewrite Hname, Hdef, Hsize, Huq, Hpk. split; [|done].
    unfold has_labels. simpl. by rewrite Hname, Hdef, Hsize, Huq, Hpk.
  - intros [H ->].
    cell H "indexname" name Hname. cell H "indexdef" def Hdef.
    cell H "index_size" sz Hsize. cell H "is_unique" uq Huq.
    cell H "is_primary" pk Hpk.
    rewrite (getitem_Some _ _ _ Hname), (getitem_Some _ _ _ Hdef),
      (getitem_Some _ _ _ Hsize), (getitem_Some _ _ _ Huq), (getitem_Some _ _ _ Hpk).
    by rewrite Hname, Hdef, Hsize, Huq, Hpk.
Qed.

(** X4: the index list of a table record has one descriptor per row of the
    index statement, in row order, and each descriptor holds the five cells
    of its row as they are. *)
Theorem indexes_follow_index_rows drv row s n m :
  table_info drv row s n = Ok (DDict m) →
  ∃ idx_rows indexes,
    execute_param_query drv IndexesQuery [s; n] = Ok idx_rows
    ∧ m !! "indexes" = Some (DList indexes)
    ∧ Forall2 (λ r i,
        i = DDict {[ "name" := DVal (get (cells r) "indexname" VNone);
                     "definition" := DVal (get (cells r) "indexdef" VNone);
                     "size" := DVal (get (cells r) "index_size" VNone);
                     "is_unique" := DVal (get (cells r) "is_unique" VNone);
                     "is_primary" := DVal (get (cells r) "is_primary" VNone) ]})
        (rows_of idx_rows) indexes.
Proof.
  unfold table_info. intros H.
  apply bind_Ok in H as (col_rows & _ & H). apply bind_Ok in H as (columns & _ & H).
  apply bind_Ok in H as (con_rows & _ & H). apply bind_Ok in H as (constraints & _ & H).
  apply bind_Ok in H as (idx_rows & Hidx & H).
  apply bind_Ok in H as (indexes & Hindexes%collect_Forall2 & H).
  injection H as <-. exists idx_rows, indexes. split_and!; [done..|].
  eapply Forall2_impl; [exact Hindexes|]. by intros r i [_ ->]%index_info_Ok.
Qed.

Lemma indexes_follow_index_rows_witness :
  ∃ m,
    table_info shop_indexed (table_row "app" "users") (VStr "app") (VStr "users")
    = Ok (DDict m)
    ∧ ∃ idx_rows indexes,
        execute_param_query shop_indexed IndexesQuery [VStr "app"; VStr "users"] = Ok idx_rows
        ∧ m !! "indexes" = Some (DList indexes)
        ∧ Forall2 (λ r i,
            i = DDict {[ "name" := DVal (get (cells r) "indexname" VNone);
                         "definition" := DVal (get (cells r) "indexdef" VNone);
                         "size" := DVal (get (cells r) "index_size" VNone);
                         "is_unique" := DVal (get (cells r) "is_unique" VNone);
                         "is_primary" := DVal (get (cells r) "is_primary" VNone) ]})
            (rows_of idx_rows) indexes.
Proof.
  eexists. split; [vm_compute; reflexivity|].
  apply (indexes_follow_index_rows shop_indexed (table_row "app" "users")
           (VStr "app") (VStr "users")).
  vm_compute. reflexivity.
Defined.

(** ** Dependencies *)

Lemma dependency_info_Ok r dep :
  dependency_info r = Ok dep ↔
  has_labels (select_list DependenciesQuery) r = true
  ∧ dep = DDict {[ "schema" := DVal (get (cells r) "source_schema" VNone);
                   "name" := DVal (get (cells r) "source_table" VNone);
                   "type" := DVal (dep_type (get (cells r) "source_type" VNone)) ]}.
Proof.
  unfold dependency_info, get. split.
  - intros H.
    apply bind_Ok in H as (schema & Hschema%getitem_Ok & H).
    apply bind_Ok in H as (name & Hname%getitem_Ok & H).
    apply bind_Ok in H as (ty & Hty%getitem_Ok & H).
    injection H as <-. rewrite Hschema, Hname, Hty. split; [|done].
    unfold has_labels. simpl. by rewrite Hschema, Hname, Hty.
  - intros [H ->].
    cell H "source_schema" schema Hschema. cell H "source_table" name Hname.
    cell H "source_type" ty Hty.
    rewrite (getitem_Some _ _ _ Hschema), (getitem_Some _ _ _ Hname),
      (getitem_Some _ _ _ Hty).
    by rewrite Hschema, Hname, Hty.
Qed.

(** X5: the dependency list of a view record has one descriptor per row of
    the dependency statement, in row order: the schema and the name of the
    row as they are, and the kind that the map gives for its [source_type]. *)
Theorem dependencies_follow_dependency_rows drv row s n m :
  view_info drv row s n = Ok (DDict m) →
  ∃ dep_rows dependencies,
    execute_param_query drv DependenciesQuery [s; n] = Ok dep_rows
    ∧ m !! "dependencies" = Some (DList dependencies)
    ∧ Forall2 (λ r dep,
        dep = DDict {[ "schema" := DVal (get (cells r) "source_schema" VNone);
                       "name" := DVal (get (cells r) "source_table" VNone);
                       "type" := DVal (dep_type (get (cells r) "source_type" VNone)) ]})
        (rows_of dep_rows) dependencies.
Proof.
  unfold view_info. intros H.
  apply bind_Ok in H as (col_rows & _ & H). apply bind_Ok in H as (columns & _ & H).
  apply bind_Ok in H as (dep_rows & Hdep & H).
  apply bind_Ok in H as (deps & Hdeps%collect_Forall2 & H).
  injection H as <-. exists dep_rows, deps. split_and!; [done..|].
  eapply Forall2_impl; [exact Hdeps|]. by intros r i [_ ->]%dependency_info_Ok.
Qed.

Lemma dependencies_follow_dependency_rows_witness :
  ∃ m,
    view_info shop_indexed (view_row "app" "active_users" "SELECT id FROM app.users")
      (VStr "app") (VStr "active_users") = Ok (DDict m)
    ∧ ∃ dep_rows dependencies,
        execute_param_query shop_indexed DependenciesQuery
          [VStr "app"; VStr "active_users"] = Ok dep_rows
        ∧ m !! "dependencies" = Some (DList dependencies)
        ∧ Forall2 (λ r dep,
            dep = DDict {[ "schema" := DVal (get (cells r) "source_schema" VNone);
                           "name" := DVal (get (cells r) "source_table" VNone);
                           "type" := DVal (dep_type (get (cells r) "source_type" VNone)) ]})
            (rows_of dep_rows) dependencies.
Proof.
  eexists. split; [vm_compute; reflexivity|].
  apply (dependencies_follow_dependency_rows shop_indexed
           (view_row "app" "active_users" "SELECT id FROM app.users")
           (VStr "app") (VStr "active_users")).
  vm_compute. reflexivity.
Defined.

(** X6: the kind of a dependency is "unknown" exactly when its [source_type]
    is not one of the texts [r], [v] and [m]: any other code, and any value
    that is not a text, is mapped to "unknown" and never raises. *)
Theorem dep_type_unknown_iff v :
  dep_type v = VStr "unknown" ↔ v ∉ [VStr "r"; VStr "v"; VStr "m"].
Proof.
  rewrite !not_elem_of_cons.
  destruct v as [|b|z|k]; simpl.
  1-3: split; [intros _; split_and!; try done; apply not_elem_of_nil | done].
  unfold dep_type_map.
  destruct (decide (k = "r")) as [->|Hr]; [split; [done | by intros [? _]]|].
  destruct (decide (k = "v")) as [->|Hv]; [split; [done | by intros (_ & ? & _)]|].
  destruct (decide (k = "m")) as [->|Hm]; [split; [done | by intros (_ & _ & ? & _)]|].
  rewrite !lookup_insert_ne, lookup_singleton_ne by done. simpl.
  split; [intros _; split_and!; try congruence; apply not_elem_of_nil | done].
Qed.

(** ** The order and the names of the constraint descriptors *)

Lemma first_seen_ext s1 s2 l :
  (∀ x, x ∈ s1 ↔ x ∈ s2) → first_seen s1 l = first_seen s2 l.
Proof.
  revert s1 s2. induction l as [|x l IH]; intros s1 s2 H; simpl; [done|].
  rewrite (bool_decide_ext _ _ (H x)). destruct (bool_decide (x ∈ s2)).
  - by apply IH.
  - f_equal. apply IH. intros y. rewrite !elem_of_cons. by rewrite H.
Qed.

Lemma first_seen_NoDup seen l :
  NoDup (first_seen seen l) ∧ ∀ x, x ∈ first_seen seen l ↔ x ∈ l ∧ x ∉ seen.
Proof.
  revert seen. induction l as [|y l IH]; intros seen; simpl.
  - split; [apply NoDup_nil_2 | intros x; split; [by intros ?%elem_of_nil | by intros [?%elem_of_nil _]]].
  - destruct (bool_decide (y ∈ seen)) eqn:Hy.
    + apply bool_decide_eq_true in Hy. destruct (IH seen) as [Hnd Hel].
      split; [done|]. intros x. rewrite Hel, elem_of_cons.
      split; [tauto|]. intros [[->|Hx] Hn]; [done | tauto].
    + apply bool_decide_eq_false in Hy. destruct (IH (y :: seen)) as [Hnd Hel].
      split.
      * apply NoDup_cons. split; [|done]. rewrite Hel, elem_of_cons. tauto.
      * intros x. rewrite !elem_of_cons, Hel, elem_of_cons.
        destruct (decide (x = y)) as [->|]; [tauto|]. tauto.
Qed.

Lemma con_loop_keys rows acc :
  shaped ConstraintsQuery rows = true →
  Forall (λ kv, entry_wf kv.2) acc →
  ∃ acc', con_loop rows acc = Ok acc'
    ∧ Forall (λ kv, entry_wf kv.2) acc'
    ∧ od_keys acc' = od_keys acc ++ first_seen (od_keys acc) (constraint_keys rows).
Proof.
  revert acc. induction rows as [|r rows IH]; intros acc Hrows Hacc.
  - exists acc. split_and!; [done..|]. by rewrite app_nil_r.
  - apply shaped_cons in Hrows as [Hr Hrows].
    cell Hr "constraint_name" cname Hcname.
    destruct (con_step_lookup acc r VNone Hr Hacc) as (acc1 & Hstep & Hwf1 & _ & _).
    pose proof (con_step_upsert acc r cname Hr Hacc Hcname) as Hup.
    rewrite Hstep in Hup. injection Hup as ->.
    destruct (IH _ Hrows Hwf1) as (acc' & Hloop & Hwf' & Hkeys).
    exists acc'. split_and!; [|done|].
    + simpl. by rewrite Hstep.
    + rewrite Hkeys, od_keys_insert. unfold constraint_keys. csimpl. rewrite Hcname.
      csimpl. fold (constraint_keys rows).
      destruct (od_lookup cname acc) as [e|] eqn:He.
      * rewrite bool_decide_eq_true_2; [done|].
        destruct (decide (key_of cname ∈ od_keys acc)) as [|Hn]; [done|].
        apply od_lookup_None in Hn. congruence.
      * apply od_lookup_None in He. rewrite bool_decide_eq_false_2 by done.
        rewrite <-app_assoc. simpl. do 2 f_equal. apply first_seen_ext.
        intros x. rewrite elem_of_app, !elem_of_cons, elem_of_nil. tauto.
Qed.

Lemma descriptor_keys_constraints_list cs :
  Forall (λ kv, entry_wf kv.2) cs →
  descriptor_keys (constraints_list cs) = od_keys cs.
Proof.
  unfold descriptor_keys, constraints_list, od_keys.
  induction 1 as [|[k e] cs [Hn _] _ IH]; [done|].
  rewrite !fmap_cons. cbn [omap list_omap]. simpl in Hn.
  rewrite lookup_union_r, lookup_singleton_eq by done.
  cbn [fst]. f_equal. apply IH.
Qed.

(** X7: the constraint descriptors of a table come in the order in which
    their names first appear in the rows of the constraint statement, one
    descriptor per distinct name. *)
Theorem constraint_descriptors_in_first_seen_order rows :
  shaped ConstraintsQuery rows = true →
  ∃ descriptors,
    build_constraints (Some rows) = Ok descriptors
    ∧ descriptor_keys descriptors = first_seen [] (constraint_keys rows)
    ∧ length descriptors = length (descriptor_keys descriptors)
    ∧ NoDup (descriptor_keys descriptors).
Proof.
  intros Hshape. unfold build_constraints. rewrite rows_of_Some.
  destruct (con_loop_keys rows [] Hshape) as (cs & -> & Hwf & Hkeys); [apply Forall_nil_2|].
  eexists. split; [reflexivity|].
  change (od_keys [] ++ ?l) with l in Hkeys.
  rewrite (descriptor_keys_constraints_list _ Hwf), Hkeys.
  split_and!; [done| |apply first_seen_NoDup].
  unfold constraints_list. rewrite length_fmap, <-Hkeys. unfold od_keys.
  by rewrite length_fmap.
Qed.

Lemma constraint_descriptors_in_first_seen_order_witness :
  ∃ descriptors,
    build_constraints (Some orders_constraints) = Ok descriptors
    ∧ descriptor_keys descriptors = [VStr "orders_customer_fk"; VStr "orders_pkey"]
    ∧ length descriptors = length (descriptor_keys descriptors)
    ∧ NoDup (descriptor_keys descriptors).
Proof.
  apply (constraint_descriptors_in_first_seen_order orders_constraints). reflexivity.
Defined.

Lemma reference_of_is_Some r :
  is_Some (reference_of r) ↔
  cells r !! "constraint_type" = Some (VStr "FOREIGN KEY")
  ∧ truthy (get (cells r) "foreign_table_name" VNone) = true.
Proof.
  unfold reference_of, get.
  destruct (cells r !! "constraint_type") as [ty|] eqn:Hty; simpl.
  - destruct (py_eqb ty (VStr "FOREIGN KEY")) eqn:Hfk; simpl.
    + apply py_eqb_str in Hfk as ->.
      destruct (truthy _).
      * split; [done | intros _; by eexists].
      * split; [by intros [? ?] | by intros [_ ?]].
    + split; [by intros [? ?]|]. intros [[= ->] _]. by rewrite py_eqb_refl in Hfk.
  - split; [by intros [? ?] | by intros [? _]].
Qed.

(** X8: a constraint descriptor takes its type from the first row of the
    constraint, and it has a reference block exactly when that row is a
    FOREIGN KEY row with a foreign table name: the descriptor of a primary
    key, a unique or a check constraint never has one. *)
Theorem references_iff_first_row_is_foreign_key rows pre r post cname :
  shaped ConstraintsQuery rows = true →
  rows = pre ++ r :: post →
  Forall (λ x, row_named cname x = false) pre →
  row_named cname r = true →
  ∃ descriptors d,
    build_constraints (Some rows) = Ok descriptors
    ∧ List.filter (has_name cname) descriptors = [DDict d]
    ∧ d !! "type" = DVal <$> cells r !! "constraint_type"
    ∧ (is_Some (d !! "references") ↔
       cells r !! "constraint_type" = Some (VStr "FOREIGN KEY")
       ∧ truthy (get (cells r) "foreign_table_name" VNone) = true).
Proof.
  intros Hshape Hrows Hpre Hr.
  destruct (build_constraints_named rows pre r post cname Hshape Hrows Hpre Hr)
    as (descriptors & d & Hb & Hd & _ & Ht & Href).
  exists descriptors, d. split_and!; [done..| |].
  - assert (has_labels (select_list ConstraintsQuery) r = true) as H.
    { eapply shaped_elem; [done|]. rewrite Hrows. set_solver. }
    cell H "constraint_type" ty Hty. by rewrite Ht, (get_Some _ _ _ _ Hty), Hty.
  - rewrite Href. apply reference_of_is_Some.
Qed.

Lemma references_iff_first_row_is_foreign_key_witness :
  ∃ descriptors d,
    build_constraints (Some orders_constraints) = Ok descriptors
    ∧ List.filter (has_name (VStr "orders_pkey")) descriptors = [DDict d]
    ∧ d !! "type" = Some (DStr "PRIMARY KEY")
    ∧ d !! "references" = None.
Proof.
  destruct (references_iff_first_row_is_foreign_key orders_constraints
              (take 4 orders_constraints)
              (constraint_row (VStr "orders_pkey") (VStr "PRIMARY KEY") (VStr "id")
                 VNone VNone VNone)
              [] (VStr "orders_pkey"))
    as (descriptors & d & Hb & Hd & Ht & Href).
  - reflexivity.
  - reflexivity.
  - repeat constructor.
  - reflexivity.
  - exists descriptors, d. split_and!; [exact Hb | exact Hd | exact Ht |].
    destruct (d !! "references") as [x|]; [|reflexivity].
    destruct Href as [Href _]. destruct Href as [Hfk _]; [by eexists | discriminate Hfk].
Defined.

(** ** Rows that cannot be read *)

Lemma collect_raises {A B} (f : A → result B) (l : list A) x :
  x ∈ l → is_ok (f x) = false → is_ok (collect f l) = false.
Proof.
  induction l as [|y l IH]; [by intros ?%elem_of_nil|].
  intros [->|Hx]%elem_of_cons Hf; simpl.
  - by destruct (f y).
  - destruct (f y); [|done]. simpl. specialize (IH Hx Hf).
    by destruct (collect f l).
Qed.

Lemma col_info_missing_label r :
  has_labels mandatory_column_labels r = false → is_ok (col_info r) = false.
Proof.
  intros (l & Hl & Hnone)%has_labels_false.
  destruct (col_info r) as [c|] eqn:H; [|done]. exfalso.
  unfold col_info in H.
  apply bind_Ok in H as (name & Hname%getitem_Ok & H).
  apply bind_Ok in H as (ty & Hty%getitem_Ok & H).
  apply bind_Ok in H as (nl & Hnl%getitem_Ok & H).
  apply bind_Ok in H as (df & Hdf%getitem_Ok & H).
  apply bind_Ok in H as (pos & Hpos%getitem_Ok & _).
  unfold mandatory_column_labels in Hl.
  repeat (apply elem_of_cons in Hl as [->|Hl]; [congruence|]).
  by apply elem_of_nil in Hl.
Qed.

(** The report when the body raises for a listed entity, whatever the
    cause. *)
Lemma omitted_entity_report connect kind db drv srows pre row post s n :
  connect db = Ok drv →
  execute_query drv SchemasQuery = Ok srows →
  execute_query drv (listing kind) = Ok (Some (pre ++ row :: post)) →
  shaped (listing kind) (pre ++ row :: post) = true →
  cells row !! "table_schema" = Some s →
  cells row !! "table_name" = Some n →
  (∀ row', is_ok (assemble kind drv row' s n) = false) →
  ∃ entities,
    describe connect kind db = TextResponse (report kind db (schemas_of srows) entities)
    ∧ entities = omap (entity_record (assemble kind drv)) (pre ++ post)
    ∧ ∀ info, info ∈ entities → ¬ describes s n info.
Proof.
  intros Hc Hs Hl Hshape Hsn Hn Hraise.
  assert (entity_record (assemble kind drv) row = None) as Hrow.
  { unfold entity_record. rewrite Hsn, Hn.
    specialize (Hraise row). by destruct (assemble kind drv row s n). }
  exists (omap (entity_record (assemble kind drv)) (pre ++ post)).
  split_and!; [|done|].
  - rewrite (describe_listed _ _ _ _ _ _ Hc Hs Hl Hshape).
    assert (rows_truthy (Some (pre ++ row :: post)) = true) as -> by by destruct pre.
    cbn [default]. unfold id. rewrite !omap_app. do 3 f_equal.
    change (omap ?f (row :: post)) with
      (match f row with Some y => y :: omap f post | None => omap f post end).
    by rewrite Hrow.
  - intros info [row' [_ Hinfo]]%list_elem_of_omap (m & -> & Hms & Hmn).
    apply entity_record_Some in Hinfo as (s' & n' & _ & _ & Hbody).
    pose proof (assemble_describes _ _ _ _ _ _ Hbody) as (m' & [= <-] & Hms' & Hmn').
    assert (s' = s) as -> by congruence. assert (n' = n) as -> by congruence.
    specialize (Hraise row'). by rewrite Hbody in Hraise.
Qed.

(** X9: a row of the column statement that lacks one of the five indexed
    labels costs the entity its record, like a failed statement does: the
    operation answers with the report of the other listed entities. *)
Theorem entity_with_unreadable_column_row_is_omitted
    connect kind db drv srows pre row post s n col_rows r :
  connect db = Ok drv →
  execute_query drv SchemasQuery = Ok srows →
  execute_query drv (listing kind) = Ok (Some (pre ++ row :: post)) →
  shaped (listing kind) (pre ++ row :: post) = true →
  cells row !! "table_schema" = Some s →
  cells row !! "table_name" = Some n →
  execute_param_query drv ColumnsQuery [s; n] = Ok (Some col_rows) →
  r ∈ col_rows →
  has_labels mandatory_column_labels r = false →
  ∃ entities,
    describe connect kind db = TextResponse (report kind db (schemas_of srows) entities)
    ∧ entities = omap (entity_record (assemble kind drv)) (pre ++ post)
    ∧ ∀ info, info ∈ entities → ¬ describes s n info.
Proof.
  intros Hc Hs Hl Hshape Hsn Hn Hcol Hr Hbad.
  apply (omitted_entity_report connect kind db drv srows pre row post s n); try done.
  intros row'.
  assert (is_ok (collect col_info (rows_of (Some col_rows))) = false) as Hcollect.
  { rewrite rows_of_Some. eapply collect_raises; [done|]. by apply col_info_missing_label. }
  destruct kind; unfold assemble, table_info, view_info; rewrite Hcol; simpl;
    by destruct (collect col_info _).
Qed.

Lemma entity_with_unreadable_column_row_is_omitted_witness :
  ∃ entities,
    describe (λ _, Ok shop_audit) Table "shop"
    = TextResponse (report Table "shop" (schemas_of (Some (Sql.schemas_query sample_catalog)))
                      entities)
    ∧ entities = omap (entity_record (assemble Table shop_audit)) ([] ++ [table_row "app" "users"])
    ∧ ∀ info, info ∈ entities → ¬ describes (VStr "app") (VStr "audit") info.
Proof.
  apply (entity_with_unreadable_column_row_is_omitted (λ _, Ok shop_audit) Table "shop"
           shop_audit (Some (Sql.schemas_query sample_catalog))
           [] (table_row "app" "audit") [table_row "app" "users"]
           (VStr "app") (VStr "audit") [truncated_column] truncated_column).
  - reflexivity.
  - reflexivity.
  - reflexivity.
  - reflexivity.
  - reflexivity.
  - reflexivity.
  - reflexivity.
  - apply list_elem_of_here.
  - reflexivity.
Defined.

Lemma entity_loop_missing_name body pre row post infos :
  forallb (has_labels ["table_schema"; "table_name"]) pre = true →
  has_labels ["table_schema"; "table_name"] row = false →
  entity_loop body (pre ++ row :: post) infos
  = Raise (KeyError (VStr (if bool_decide (cells row !! "table_schema" = None)
                           then "table_schema" else "table_name"))).
Proof.
  intros Hpre Hrow. rewrite entity_loop_app, (entity_loop_records _ _ _ Hpre).
  simpl. unfold has_labels in Hrow. simpl in Hrow. unfold getitem.
  destruct (cells row !! "table_schema") as [s|]; [|done].
  rewrite bool_decide_eq_true_2 in Hrow by by eexists.
  rewrite bool_decide_eq_false_2 by done. simpl.
  destruct (cells row !! "table_name") as [n|]; [|done].
  by rewrite bool_decide_eq_true_2 in Hrow by by eexists.
Qed.

(** X10: a listed row without its schema or its name is read outside the
    inner [try]: the operation answers with an error response that quotes the
    missing label, and the records assembled for the rows before it are
    lost. *)
Theorem listing_row_without_name_aborts connect kind db drv srows pre row post :
  connect db = Ok drv →
  execute_query drv SchemasQuery = Ok srows →
  execute_query drv (listing kind) = Ok (Some (pre ++ row :: post)) →
  forallb (has_labels ["table_schema"; "table_name"]) pre = true →
  has_labels ["table_schema"; "table_name"] row = false →
  describe connect kind db
  = ErrorResponse (if bool_decide (cells row !! "table_schema" = None)
                   then "'table_schema'" else "'table_name'").
Proof.
  intros Hc Hs Hl Hpre Hrow. rewrite describe_unfold, Hc. cbn [mbind result_bind].
  rewrite Hs. cbn [mbind result_bind]. rewrite Hl. cbn [mbind result_bind].
  assert (rows_truthy (Some (pre ++ row :: post)) = true) as -> by by destruct pre.
  cbn [default from_option]. unfold id.
  rewrite (entity_loop_missing_name _ _ _ _ _ Hpre Hrow). simpl.
  by destruct (bool_decide _).
Qed.

Lemma listing_row_without_name_aborts_witness :
  describe (λ _, Ok shop_broken_listing) Table "shop" = ErrorResponse "'table_schema'".
Proof.
  refine (eq_trans
    (listing_row_without_name_aborts (λ _, Ok shop_broken_listing) Table "shop"
       shop_broken_listing (Some (Sql.schemas_query sample_catalog))
       [table_row "app" "users"]
       {| cells := delete "table_schema" (cells (table_row "app" "orders")) |} []
       _ _ _ _ _) _).
  - reflexivity.
  - reflexivity.
  - reflexivity.
  - reflexivity.
  - reflexivity.
  - vm_compute. reflexivity.
Defined.

(** ** The shape of a report *)

Lemma entity_loop_sublist body rows acc infos :
  entity_loop body rows acc = Ok infos →
  ∃ kept news,
    infos = acc ++ news
    ∧ kept `sublist_of` rows
    ∧ Forall2 (λ row info, ∃ s n, row_entity row = Some (s, n) ∧ body row s n = Ok info)
        kept news.
Proof.
  revert acc. induction rows as [|row rows IH]; intros acc H; simpl in H.
  - injection H as <-. exists [], []. by rewrite app_nil_r.
  - apply bind_Ok in H as (s & Hs%getitem_Ok & H).
    apply bind_Ok in H as (n & Hn%getitem_Ok & H).
    apply IH in H as (kept & news & -> & Hsub & Hall).
    destruct (body row s n) as [info|] eqn:Hbody.
    + exists (row :: kept), (info :: news). rewrite <-app_assoc. split_and!; [done|..].
      * by apply sublist_skip.
      * constructor; [|done]. exists s, n. unfold row_entity. by rewrite Hs, Hn.
    + exists kept, news. split_and!; [done| |done]. by apply sublist_cons.
Qed.

(** X11: the entity list of a report follows the listing: its records are
    the records of a sub-sequence of the listed rows, in the order of the
    listing, each assembled for the schema and the name of its row; so the
    list is never longer than the listing. *)
Theorem report_follows_listing connect kind db drv rows d entities :
  connect db = Ok drv →
  execute_query drv (listing kind) = Ok rows →
  describe connect kind db = TextResponse (DDict d) →
  d !! entities_key kind = Some (DList entities) →
  ∃ kept,
    kept `sublist_of` default [] rows
    ∧ Forall2 (λ row info, ∃ s n, row_entity row = Some (s, n)
                                   ∧ assemble kind drv row s n = Ok info)
        kept entities
    ∧ (length entities ≤ length (default [] rows))%nat.
Proof.
  intros Hc Hl. rewrite describe_unfold, Hc. cbn [mbind result_bind].
  destruct (execute_query drv SchemasQuery) as [srows|]; cbn [mbind result_bind]; [|done].
  rewrite Hl. cbn [mbind result_bind].
  destruct (rows_truthy rows).
  - destruct (entity_loop _ _ _) as [infos|] eqn:Hloop; simpl; [|done].
    intros [= <-] Hd.
    assert (infos = entities) as ->.
    { assert (Some (DList infos) = Some (DList entities)) as [= ->]; [|done].
      rewrite <-Hd. by destruct kind. }
    apply entity_loop_sublist in Hloop as (kept & news & -> & Hsub & Hall).
    exists kept. split_and!; [done..|].
    simpl. rewrite <-(Forall2_length _ _ _ Hall). by apply sublist_length.
  - simpl. intros [= <-] Hd.
    assert (entities = []) as ->.
    { assert (Some (DList []) = Some (DList entities)) as [= <-]; [|done].
      rewrite <-Hd. by destruct kind. }
    exists []. split_and!; [apply sublist_nil_l | constructor | simpl; lia].
Qed.

Lemma report_follows_listing_witness :
  ∃ d entities,
    describe connect_shop Table "shop" = TextResponse (DDict d)
    ∧ d !! "tables" = Some (DList entities)
    ∧ ∃ kept,
        kept `sublist_of` [table_row "app" "orders"; table_row "app" "users"]
        ∧ Forall2 (λ row info, ∃ s n, row_entity row = Some (s, n)
                                       ∧ assemble Table shop row s n = Ok info)
            kept entities
        ∧ (length entities ≤ 2)%nat.
Proof.
  eexists _, _. split; [vm_compute; reflexivity|]. split; [reflexivity|].
  eapply (report_follows_listing connect_shop Table "shop" shop
            (Some [table_row "app" "orders"; table_row "app" "users"])).
  - reflexivity.
  - reflexivity.
  - vm_compute. reflexivity.
  - reflexivity.
Defined.

Lemma describe_text_inv connect kind db d :
  describe connect kind db = TextResponse (DDict d) →
  ∃ drv srows,
    connect db = Ok drv
    ∧ execute_query drv SchemasQuery = Ok srows
    ∧ d !! "schemas" = Some (DList (schemas_of srows))
    ∧ d !! "database" = Some (DStr db).
Proof.
  rewrite describe_unfold.
  destruct (connect db) as [drv|] eqn:Hc; cbn [mbind result_bind]; [|done].
  destruct (execute_query drv SchemasQuery) as [srows|] eqn:Hs;
    cbn [mbind result_bind]; [|done].
  destruct (execute_query drv (listing kind)) as [rows|]; cbn [mbind result_bind]; [|done].
  destruct (rows_truthy rows).
  - destruct (entity_loop _ _ _) as [infos|]; simpl; [|done].
    intros [= <-]. exists drv, srows. destruct kind; split_and!; done.
  - simpl. intros [= <-]. exists drv, srows. destruct kind; split_and!; done.
Qed.

Lemma schemas_of_rows schema_rows :
  schemas_of schema_rows
  = (λ row, DDict (DVal <$> cells row)) <$> default [] schema_rows.
Proof. by destruct schema_rows as [[|row rows]|]. Qed.

(** X12: the report of the tables and the report of the views of one
    database both carry, under [schemas], the list of the cells of the rows
    that the schema statement returns on the connection, row by row and in
    their order (the empty list when it returns none), and both echo the name
    of the database. *)
Theorem tables_and_views_share_schemas connect db d1 d2 :
  describe connect Table db = TextResponse (DDict d1) →
  describe connect View db = TextResponse (DDict d2) →
  ∃ drv schema_rows,
    connect db = Ok drv
    ∧ execute_query drv SchemasQuery = Ok schema_rows
    ∧ d1 !! "schemas"
      = Some (DList ((λ row, DDict (DVal <$> cells row)) <$> default [] schema_rows))
    ∧ d2 !! "schemas"
      = Some (DList ((λ row, DDict (DVal <$> cells row)) <$> default [] schema_rows))
    ∧ d1 !! "database" = Some (DStr db)
    ∧ d2 !! "database" = Some (DStr db).
Proof.
  intros H1 H2.
  apply describe_text_inv in H1 as (drv1 & s1 & Hc1 & Hs1 & Hsch1 & Hdb1).
  apply describe_text_inv in H2 as (drv2 & s2 & Hc2 & Hs2 & Hsch2 & Hdb2).
  rewrite Hc1 in Hc2. injection Hc2 as <-. rewrite Hs1 in Hs2. injection Hs2 as <-.
  exists drv1, s1. rewrite <-schemas_of_rows. by split_and!.
Qed.

Lemma tables_and_views_share_schemas_witness :
  ∃ d1 d2,
    describe connect_shop Table "shop" = TextResponse (DDict d1)
    ∧ describe connect_shop View "shop" = TextResponse (DDict d2)
    ∧ ∃ drv schema_rows,
        connect_shop "shop" = Ok drv
        ∧ execute_query drv SchemasQuery = Ok schema_rows
        ∧ d1 !! "schemas"
          = Some (DList ((λ row, DDict (DVal <$> cells row)) <$> default [] schema_rows))
        ∧ d2 !! "schemas"
          = Some (DList ((λ row, DDict (DVal <$> cells row)) <$> default [] schema_rows))
        ∧ d1 !! "database" = Some (DStr "shop")
        ∧ d2 !! "database" = Some (DStr "shop").
Proof.
  eexists _, _. split; [vm_compute; reflexivity|]. split; [vm_compute; reflexivity|].
  apply (tables_and_views_share_schemas connect_shop "shop"); vm_compute; reflexivity.
Defined.

(** X13: an entity record has a fixed set of keys, nine for a table and
    seven for a view, whatever its collectors return, and it carries the kind
    of the operation and the two names it was assembled for. *)
Theorem entity_record_keys kind drv row s n m :
  assemble kind drv row s n = Ok (DDict m) →
  dom m = match kind with
          | Table => {[ "schema"; "name"; "type"; "comment"; "size"; "estimated_rows";
                        "columns"; "constraints"; "indexes" ]}
          | View => {[ "schema"; "name"; "type"; "comment"; "definition";
                       "columns"; "dependencies" ]}
          end
  ∧ m !! "type" = Some (DStr (match kind with Table => "table" | View => "view" end))
  ∧ m !! "schema" = Some (DVal s)
  ∧ m !! "name" = Some (DVal n).
Proof.
  destruct kind; unfold assemble, table_info, view_info; intros H;
    repeat (apply bind_Ok in H as (? & _ & H));
    injection H as <-;
    (split; [rewrite !dom_insert_L, dom_singleton_L; set_solver | by split_and!]).
Qed.

Lemma entity_record_keys_witness :
  ∃ m,
    assemble View shop (view_row "app" "active_users" "SELECT id FROM app.users")
      (VStr "app") (VStr "active_users") = Ok (DDict m)
    ∧ dom m = {[ "schema"; "name"; "type"; "comment"; "definition";
                 "columns"; "dependencies" ]}
    ∧ m !! "type" = Some (DStr "view")
    ∧ m !! "schema" = Some (DStr "app")
    ∧ m !! "name" = Some (DStr "active_users").
Proof.
  eexists. split; [vm_compute; reflexivity|].
  apply (entity_record_keys View shop
           (view_row "app" "active_users" "SELECT id FROM app.users")
           (VStr "app") (VStr "active_users")).
  vm_compute. reflexivity.
Defined.

(** ** The rows of the schema statement *)

Lemma schemas_query_elem catalog row :
  row ∈ Sql.schemas_query catalog ↔
  ∃ s, row = Sql.schema_row s ∧ s ∈ catalog ∧ Sql.schemas_where s = true.
Proof.
  unfold Sql.schemas_query. rewrite list_elem_of_fmap.
  split; intros (s & -> & Hs); exists s; (split; [done|]).
  - rewrite merge_sort_Permutation in Hs. apply list_elem_of_In, filter_In in Hs as [Hs ?].
    by apply list_elem_of_In in Hs.
  - rewrite merge_sort_Permutation. apply list_elem_of_In, filter_In.
    destruct Hs as [Hs ?]. by apply list_elem_of_In in Hs.
Qed.

Lemma schemas_where_true s :
  Sql.schemas_where s = true ↔
  Sql.like "pg_%" (Sql.schema_name s) = false
  ∧ Sql.schema_name s ≠ "information_schema".
Proof.
  unfold Sql.schemas_where.
  rewrite andb_true_iff, !negb_true_iff, String.eqb_neq. done.
Qed.



(** X15: the schema statement returns one row per schema of the catalog
    whose name is not [information_schema] and does not consist of [pg]
    followed by at least one more character, ordered by name. *)
Theorem schemas_query_members catalog :
  ∃ l,
    Sql.schemas_query catalog = Sql.schema_row <$> l
    ∧ Sorted Sql.by_schema_name l
    ∧ l ≡ₚ List.filter Sql.schemas_where catalog
    ∧ ∀ s, s ∈ l ↔
        s ∈ catalog
        ∧ Sql.schema_name s ≠ "information_schema"
        ∧ ¬ ∃ c rest, Sql.schema_name s = String "p" (String "g" (String c rest)).
Proof.
  destruct (schemas_query_sorted_filter catalog) as (l & Hl & Hperm & Hsorted).
  exists l. split_and!; [done..|].
  intros s. rewrite Hperm, list_elem_of_In, filter_In, <-list_elem_of_In.
  rewrite schemas_where_true, <-like_pg.
  destruct (Sql.like "pg_%" (Sql.schema_name s)); split; intros (? & ? & ?); split_and!;
    try done; congruence.
Qed.

(** ** Registration *)

Lemma list_ascii_of_string_app s t :
  String.list_ascii_of_string (s +:+ t) = String.list_ascii_of_string s ++ String.list_ascii_of_string t.
Proof. induction s as [|a s IH]; [done|]. cbn. by rewrite <-IH. Qed.

Lemma list_ascii_of_string_inj s t :
  String.list_ascii_of_string s = String.list_ascii_of_string t → s = t.
Proof.
  intros H. by rewrite <-(String.string_of_list_ascii_of_string s),
    <-(String.string_of_list_ascii_of_string t), H.
Qed.

Lemma append_inj_l s1 s2 t : s1 +:+ t = s2 +:+ t → s1 = s2.
Proof.
  intros H%(f_equal String.list_ascii_of_string). rewrite !list_ascii_of_string_app in H.
  by apply app_inv_tail, list_ascii_of_string_inj in H.
Qed.

Lemma tables_views_differ s1 s2 : s1 +:+ "/tables" ≠ s2 +:+ "/views".
Proof.
  intros H%(f_equal String.list_ascii_of_string). rewrite !list_ascii_of_string_app in H.
  change (String.list_ascii_of_string "/tables")
    with (String.list_ascii_of_string "/tabl" ++ String.list_ascii_of_string "es") in H.
  change (String.list_ascii_of_string "/views")
    with (String.list_ascii_of_string "/vie" ++ String.list_ascii_of_string "ws") in H.
  rewrite !app_assoc in H. by apply app_inj_2 in H as [_ ?].
Qed.


(** X17: the static resources of two different databases never share an
    address, and the address of the tables of a database is never the address
    of the views of a database. *)
Theorem static_addresses_do_not_clash n1 n2 :
  n1 ≠ n2 →
  NoDup [tables_uri n1; views_uri n1; tables_uri n2; views_uri n2].
Proof.
  intros Hne. unfold tables_uri, views_uri.
  assert (∀ a b, "postgres://database/" +:+ a = "postgres://database/" +:+ b → a = b)
    as Hinj by (intros a b; apply String.app_inj).
  repeat (apply NoDup_cons; split); [..|apply NoDup_nil_2];
    rewrite ?not_elem_of_cons; split_and?; try apply not_elem_of_nil;
    intros H%Hinj.
  - by apply tables_views_differ in H.
  - by apply append_inj_l in H.
  - by apply tables_views_differ in H.
  - symmetry in H. by apply tables_views_differ in H.
  - by apply append_inj_l in H.
  - by apply tables_views_differ in H.
Qed.

Lemma static_addresses_do_not_clash_witness :
  NoDup [ "postgres://database/shop/tables"; "postgres://database/shop/views";
          "postgres://database/crm/tables"; "postgres://database/crm/views" ].
Proof.
  apply (static_addresses_do_not_clash "shop" "crm"). discriminate.
Defined.

(** ** A listing of which nothing is left *)

Lemma omap_all_None {A B} (f : A → option B) (l : list A) :
  (∀ x, x ∈ l → f x = None) → omap f l = [].
Proof.
  induction l as [|x l IH]; intros H; [done|].
  csimpl. rewrite (H x) by apply list_elem_of_here. simpl.
  apply IH. intros y Hy. apply H. by apply list_elem_of_further.
Qed.

(** X18: when the listing has rows and the body raises for each of them,
    at the schema and the name of the row, the operation still answers with a
    report: its entity list is empty and its total is 0. *)
Theorem report_of_failed_entities_is_empty connect kind db drv srows rows :
  connect db = Ok drv →
  execute_query drv SchemasQuery = Ok srows →
  execute_query drv (listing kind) = Ok (Some rows) →
  rows ≠ [] →
  shaped (listing kind) rows = true →
  (∀ row s n, row ∈ rows → row_entity row = Some (s, n) →
              is_ok (assemble kind drv row s n) = false) →
  ∃ d,
    describe connect kind db = TextResponse (DDict d)
    ∧ d !! entities_key kind = Some (DList [])
    ∧ d !! total_key kind = Some (DInt 0).
Proof.
  intros Hc Hs Hl Hne Hshape Hfail.
  rewrite (describe_listed _ _ _ _ _ _ Hc Hs Hl Hshape).
  assert (rows_truthy (Some rows) = true) as -> by by destruct rows.
  cbn [default from_option]. unfold id. rewrite omap_all_None.
  - eexists. split; [reflexivity|]. by destruct kind.
  - intros row Hrow. specialize (Hfail row). unfold row_entity in Hfail.
    unfold entity_record.
    destruct (cells row !! "table_schema") as [s|]; [|done].
    destruct (cells row !! "table_name") as [n|]; [|done].
    specialize (Hfail s n Hrow eq_refl). by destruct (assemble kind drv row s n).
Qed.

Lemma report_of_failed_entities_is_empty_witness :
  ∃ d,
    describe (λ _, Ok shop_locked) Table "shop" = TextResponse (DDict d)
    ∧ d !! "tables" = Some (DList [])
    ∧ d !! "total_tables" = Some (DInt 0).
Proof.
  apply (report_of_failed_entities_is_empty (λ _, Ok shop_locked) Table "shop" shop_locked
           (Some (Sql.schemas_query sample_catalog))
           [table_row "app" "orders"; table_row "app" "users"]).
  - reflexivity.
  - reflexivity.
  - reflexivity.
  - discriminate.
  - reflexivity.
  - intros row s n Hrow Hentity.
    apply elem_of_cons in Hrow as [->|Hrow];
      [vm_compute in Hentity; injection Hentity as <- <-; reflexivity|].
    apply elem_of_cons in Hrow as [->|Hrow];
      [vm_compute in Hentity; injection Hentity as <- <-; reflexivity|].
    by apply elem_of_nil in Hrow.
Defined.
